(** * Conversational IVR: the call-processing pipeline

    A shallow embedding of the orchestrator ([app/core/orchestrator.py]),
    the flow engine, the responder's keyword rules, the session store, the
    transcript store and the inbound-call webhook, followed by the
    properties of the specification that were checked against them.

    Conventions of the embedding:
    - a Python [str] is a [string], the UTF-8 code units of its text:
      substring tests and comparisons on the code units agree with
      Python's on the text; [str.lower()], which follows the Unicode tables
      of the interpreter, is a parameter (the field [str_lower] of the
      environment); [None] is the [None] of an [option];
    - a [dict] of a fixed shape (payload, transcript entry, flow node,
      responder result) is a record, a key that may be missing being an
      [option]; a session, whose keys vary, is a [gmap string value];
    - a [try ... except Exception] block is [try_except] in a state and
      exception monad over the process-wide stores;
    - every call that leaves the process (database, Redis) draws its
      success or failure from a fault schedule held in the state, so a
      statement quantified over the state holds under every failure
      pattern. *)

From Stdlib Require Import String Ascii ZArith List Lia Bool.
From stdpp Require Import gmap strings list fin_maps sorting.

Local Open Scope string_scope.

(* ===================================================================== *)
(** * Python strings *)
(* ===================================================================== *)

Module PyStr.

(** Lowering of ASCII text: [A]..[Z] are shifted, every other code unit
    is kept.  This is not [str.lower()], which lowers letters outside
    ASCII too and is a parameter of the embedding; on ASCII text the two
    agree, and [ascii_lower] is what the examples take for the parameter. *)
Definition lower_ascii (c : ascii) : ascii :=
  let n := nat_of_ascii c in
  if (65 <=? n)%nat && (n <=? 90)%nat then ascii_of_nat (n + 32) else c.

Fixpoint ascii_lower (s : string) : string :=
  match s with
  | EmptyString => EmptyString
  | String c s' => String (lower_ascii c) (ascii_lower s')
  end.

(** [sub in s]: the substring test. *)
Fixpoint str_in (sub s : string) : bool :=
  if String.prefix sub s then true
  else match s with
       | EmptyString => false
       | String _ s' => str_in sub s'
       end.

(** Truthiness of a string: [bool(s)]. *)
Definition nonempty (s : string) : bool :=
  match s with EmptyString => false | String _ _ => true end.

(** [s1 <= s2] on strings (code-unit lexicographic order). *)
Definition le (s1 s2 : string) : Prop := String.leb s1 s2 = true.

End PyStr.

(* ===================================================================== *)
(** * Responder keyword rules *)
(* ===================================================================== *)

(** The dict returned by a responder: [intent], [reply] and the optional
    [escalate] key ([None] when the key is absent). *)
Record llm_result := LlmResult {
  lr_intent : option string;
  lr_reply : option string;
  lr_escalate : option bool;
}.

Module llm_client.
Import PyStr.

(** [_rule_based_response(text, context)]; the context is not used, and
    [lower] is [str.lower]. *)
Definition _rule_based_response (lower : string → string) (text : string) : llm_result :=
  let t := lower text in
  if str_in "balance" t || str_in "account" t then
    LlmResult (Some "account_balance") (Some "Your account balance is â‚¹3,420.") None
  else if str_in "payment" t || str_in "bill" t then
    LlmResult (Some "payments")
      (Some "You can make payments via the web portal. Would you like a link?") None
  else if str_in "agent" t || str_in "human" t || str_in "representative" t then
    LlmResult (Some "connect_agent") (Some "Connecting you to an agent.") (Some true)
  else if str_in "hello" t || str_in "hi" t then
    LlmResult (Some "greeting") (Some "Hello! How can I help you today?") None
  else
    LlmResult (Some "unknown") (Some "Sorry, I didn't understand that. Could you repeat?") None.

End llm_client.

(* ===================================================================== *)
(** * Python values *)
(* ===================================================================== *)

(** JSON-like values held in sessions. *)
#[warnings="-register-all"]
Inductive value : Type :=
| VNone
| VBool (b : bool)
| VStr (s : string)
| VList (l : list value)
| VDict (d : gmap string value).

(** [bool(v)]. *)
Definition truthy (v : value) : bool :=
  match v with
  | VNone => false
  | VBool b => b
  | VStr s => PyStr.nonempty s
  | VList l => match l with [] => false | _ :: _ => true end
  | VDict d => negb (bool_decide (d = ∅))
  end.

(** [bool(d.get(k, False))] for a key holding a boolean or [None]. *)
Definition bool_of (o : option bool) : bool :=
  match o with Some b => b | None => false end.

Definition opt_str (o : option string) : value :=
  match o with Some s => VStr s | None => VNone end.

(** A session is a dict from field names to values. *)
Abbreviation session := (gmap string value).

Definition opt_dict (o : option session) : value :=
  match o with Some d => VDict d | None => VNone end.

(** [d.update(patch)]: keys of the patch win, the other keys stay. *)
Definition dict_update (d patch : session) : session := patch ∪ d.

(** A transcript entry dict: [call_id], [timestamp], [text], [source], and
    [created_at] once [save_transcript] has touched it. *)
Record entry := Entry {
  e_call_id : string;
  e_timestamp : string;
  e_text : string;
  e_source : string;
  e_created_at : option string;
}.

Definition entry_value (e : entry) : value :=
  let base : session :=
    <["call_id" := VStr (e_call_id e)]>
    (<["timestamp" := VStr (e_timestamp e)]>
    (<["text" := VStr (e_text e)]>
    (<["source" := VStr (e_source e)]> ∅))) in
  VDict (match e_created_at e with
         | Some c => <["created_at" := VStr c]> base
         | None => base
         end).

(** A row of the SQL table [transcripts]. *)
Record transcript_row := Row {
  r_id : nat;
  r_call_id : string;
  r_timestamp : string;
  r_text : string;
  r_source : string;
  r_created_at : string;
}.

(* ===================================================================== *)
(** * Flows *)
(* ===================================================================== *)

(** [FlowNode] and [Flow] as the flow API validates and stores them; an
    absent key and a [None] value read the same through [dict.get]. *)
Record FlowNode := Node {
  n_id : string;
  n_type : string;
  n_text : option string;
  n_intent : option string;
  n_reply : option string;
  n_escalate : option bool;
}.

Record Flow := MkFlow {
  flow_id : string;
  flow_name : option string;
  flow_description : option string;
  nodes : list FlowNode;
}.

(** The dict returned by the flow engine; a field is [None] when its key
    is absent from the dict, and [fe_reply = Some None] is the key
    [reply] holding Python's [None]. *)
Record flow_result := FlowResult {
  fe_reply : option (option string);
  fe_escalate : option bool;
}.

Module flow_engine.

(** [n.get("intent") and n.get("intent") == intent], under the guard
    [if intent:]. *)
Definition node_matches (intent : option string) (n : FlowNode) : bool :=
  match intent, n_intent n with
  | Some i, Some k => PyStr.nonempty i && PyStr.nonempty k && bool_decide (k = i)
  | _, _ => false
  end.

(** [n.get("id") == "start" and n.get("type") in ("ask", "say")]. *)
Definition is_start (n : FlowNode) : bool :=
  bool_decide (n_id n = "start") &&
  (bool_decide (n_type n = "ask") || bool_decide (n_type n = "say")).

(** [FlowEngine.run_flow(flow, intent, text)]; [text] is not used. *)
Definition run_flow (flow : Flow) (intent : option string) : flow_result :=
  match List.find (node_matches intent) (nodes flow) with
  | Some n => FlowResult (Some (n_reply n)) (Some (bool_of (n_escalate n)))
  | None =>
      match List.find is_start (nodes flow) with
      | Some n => FlowResult (Some (n_text n)) (Some false)
      | None => FlowResult (Some None) (Some false)
      end
  end.

End flow_engine.

(* ===================================================================== *)
(** * Effects: process-wide state and exceptions *)
(* ===================================================================== *)

Inductive exn : Type :=
| Exception (msg : string)
| HTTPException (status_code : nat) (detail : string).

Inductive outcome (A : Type) : Type :=
| Ret (a : A)
| Raise (e : exn).
Arguments Ret {A} a.
Arguments Raise {A} e.

(** The call-start payload, [payload.dict(by_alias=True)]. *)
Record CallWebhook := Payload {
  p_call_id : string;
  p_from : option string;
  p_to : option string;
  p_media_url : option string;
  p_direction : option string;
}.

Inductive background_task : Type :=
| TaskProcessCall (payload : CallWebhook)
| TaskStubProcessCall (payload : CallWebhook).

(** The mutable state of the process and of the services it talks to. *)
Record world := World {
  faults : list bool;                          (* outcome of the next I/O calls: [true] fails *)
  clock : nat;                                 (* clock readings taken so far *)
  db_transcripts : list transcript_row;        (* SQL table [transcripts], in insertion order *)
  redis_sessions : gmap string session;        (* Redis string keys, JSON documents decoded *)
  redis_lists : gmap string (list entry);      (* Redis list keys *)
  INMEM_SESSIONS : gmap string session;        (* session_store._INMEM_SESSIONS *)
  INMEM_TRANSCRIPTS : gmap string (list entry);(* session_store._INMEM_TRANSCRIPTS *)
  webhooks_INMEM_SESSIONS : gmap string session; (* api.webhooks._INMEM_SESSIONS *)
  scheduled : list background_task;            (* tasks added to BackgroundTasks *)
}.

Definition set_faults (f : list bool) (w : world) : world :=
  World f (clock w) (db_transcripts w) (redis_sessions w) (redis_lists w)
        (INMEM_SESSIONS w) (INMEM_TRANSCRIPTS w) (webhooks_INMEM_SESSIONS w) (scheduled w).
Definition set_clock (c : nat) (w : world) : world :=
  World (faults w) c (db_transcripts w) (redis_sessions w) (redis_lists w)
        (INMEM_SESSIONS w) (INMEM_TRANSCRIPTS w) (webhooks_INMEM_SESSIONS w) (scheduled w).
Definition set_db_transcripts (t : list transcript_row) (w : world) : world :=
  World (faults w) (clock w) t (redis_sessions w) (redis_lists w)
        (INMEM_SESSIONS w) (INMEM_TRANSCRIPTS w) (webhooks_INMEM_SESSIONS w) (scheduled w).
Definition set_redis_sessions (r : gmap string session) (w : world) : world :=
  World (faults w) (clock w) (db_transcripts w) r (redis_lists w)
        (INMEM_SESSIONS w) (INMEM_TRANSCRIPTS w) (webhooks_INMEM_SESSIONS w) (scheduled w).
Definition set_redis_lists (r : gmap string (list entry)) (w : world) : world :=
  World (faults w) (clock w) (db_transcripts w) (redis_sessions w) r
        (INMEM_SESSIONS w) (INMEM_TRANSCRIPTS w) (webhooks_INMEM_SESSIONS w) (scheduled w).
Definition set_INMEM_SESSIONS (m : gmap string session) (w : world) : world :=
  World (faults w) (clock w) (db_transcripts w) (redis_sessions w) (redis_lists w)
        m (INMEM_TRANSCRIPTS w) (webhooks_INMEM_SESSIONS w) (scheduled w).
Definition set_INMEM_TRANSCRIPTS (m : gmap string (list entry)) (w : world) : world :=
  World (faults w) (clock w) (db_transcripts w) (redis_sessions w) (redis_lists w)
        (INMEM_SESSIONS w) m (webhooks_INMEM_SESSIONS w) (scheduled w).
Definition set_webhooks_INMEM_SESSIONS (m : gmap string session) (w : world) : world :=
  World (faults w) (clock w) (db_transcripts w) (redis_sessions w) (redis_lists w)
        (INMEM_SESSIONS w) (INMEM_TRANSCRIPTS w) m (scheduled w).
Definition set_scheduled (t : list background_task) (w : world) : world :=
  World (faults w) (clock w) (db_transcripts w) (redis_sessions w) (redis_lists w)
        (INMEM_SESSIONS w) (INMEM_TRANSCRIPTS w) (webhooks_INMEM_SESSIONS w) t.

(** A computation reads and writes the world and returns or raises; the
    state written before a raise stays written. *)
Definition M (A : Type) : Type := world → outcome A * world.

Definition ret {A} (a : A) : M A := fun w => (Ret a, w).
Definition raise {A} (e : exn) : M A := fun w => (Raise e, w).
Definition bind {A B} (m : M A) (k : A → M B) : M B :=
  fun w => match m w with
           | (Ret a, w') => k a w'
           | (Raise e, w') => (Raise e, w')
           end.

(** [try: body  except Exception: handler]. *)
Definition try_except {A} (body : M A) (handler : exn → M A) : M A :=
  fun w => match body w with
           | (Ret a, w') => (Ret a, w')
           | (Raise e, w') => handler e w'
           end.

Definition gets {A} (f : world → A) : M A := fun w => (Ret (f w), w).
Definition modify (f : world → world) : M unit := fun w => (Ret tt, f w).
Definition lift {A} (o : outcome A) : M A := fun w => (o, w).

#[global] Instance M_ret : MRet M := @ret.
#[global] Instance M_bind : MBind M := fun A B k m => bind m k.

(** One call that leaves the process: it fails when the fault schedule
    says so, before having any effect. *)
Definition io_call : M unit :=
  fun w => match faults w with
           | true :: fs => (Raise (Exception "I/O error"), set_faults fs w)
           | false :: fs => (Ret tt, set_faults fs w)
           | [] => (Ret tt, w)
           end.

(** What stays fixed during a run: configuration, which optional modules
    import, the behaviour of the adapters behind the clients, and the
    Unicode lowering of the interpreter. *)
Record env := Env {
  now : nat → string;                  (* the k-th value of datetime.utcnow().isoformat() *)
  redis_client : bool;                 (* session_store._redis_client is set *)
  WEBHOOK_SECRET : string;
  MEDIA_BASE_URL : string;
  path_name : string → string;         (* pathlib: Path(p).name *)
  asr : option (option string → outcome string);       (* _asr.transcribe, if _asr *)
  llm : option (string → string → outcome llm_result);  (* _llm.generate_response, if _llm *)
  tts : option (option string → string → outcome (option string)); (* _tts.synthesize, if _tts *)
  has_flow_engine : bool;              (* _flow_engine is set *)
  flows_store_list_flows : outcome (list Flow);  (* import and call storage.flows_store.list_flows *)
  api_FLOW_STORE : outcome (list Flow);          (* import api.flows._FLOW_STORE; its values *)
  has_transcripts_store : bool;        (* storage.transcripts_store imports *)
  media_bridge : option (string → outcome session); (* core.media_bridge.escalate_to_agent, if it imports *)
  has_orchestrator : bool;             (* api.webhooks.process_call is set *)
  str_lower : string → string;         (* str.lower(), on the UTF-8 code units of a text *)
}.

(** [datetime.utcnow().isoformat()]. *)
Definition utcnow (E : env) : M string :=
  fun w => (Ret (now E (clock w)), set_clock (S (clock w)) w).

(* ===================================================================== *)
(** * Session store ([app/state/session_store.py]) *)
(* ===================================================================== *)

Module session_store.
Section WithEnv.
Context (E : env).

Definition _session_key (call_id : string) : string := "session:" +:+ call_id.
Definition _transcripts_key (call_id : string) : string := "transcripts:" +:+ call_id.

(** Redis commands; a session travels as JSON text, which decodes to
    the value that was encoded. *)
Definition redis_get (key : string) : M (option session) :=
  io_call;; gets (λ w, redis_sessions w !! key).
Definition redis_set (key : string) (s : session) : M unit :=
  io_call;; modify (λ w, set_redis_sessions (<[key := s]> (redis_sessions w)) w).
Definition redis_rpush (key : string) (e : entry) : M unit :=
  io_call;;
  modify (λ w, set_redis_lists
                 (<[key := (default [] (redis_lists w !! key) ++ [e])%list]> (redis_lists w)) w).

(** [_INMEM_SESSIONS[call_id] = session]. *)
Definition inmem_put (call_id : string) (s : session) : M unit :=
  modify (λ w, set_INMEM_SESSIONS (<[call_id := s]> (INMEM_SESSIONS w)) w).
(** [_INMEM_SESSIONS.get(call_id)]. *)
Definition inmem_get (call_id : string) : M (option session) :=
  gets (λ w, INMEM_SESSIONS w !! call_id).
(** [_INMEM_TRANSCRIPTS.setdefault(call_id, []).append(entry)]. *)
Definition inmem_append (call_id : string) (e : entry) : M unit :=
  modify (λ w, set_INMEM_TRANSCRIPTS
                 (<[call_id := (default [] (INMEM_TRANSCRIPTS w !! call_id) ++ [e])%list]>
                    (INMEM_TRANSCRIPTS w)) w).

Definition set_session (call_id : string) (s : session) : M unit :=
  if redis_client E then
    try_except (redis_set (_session_key call_id) s) (λ _, inmem_put call_id s)
  else inmem_put call_id s.

(** [get_session], returning also whether the dict it hands out is the
    very object held by [_INMEM_SESSIONS] (a dict decoded from Redis is
    a fresh one). *)
Definition get_session_ref (call_id : string) : M (option session * bool) :=
  if redis_client E then
    try_except (raw ← redis_get (_session_key call_id); mret (raw, false))
               (λ _, s ← inmem_get call_id; mret (s, true))
  else s ← inmem_get call_id; mret (s, true).

Definition get_session (call_id : string) : M (option session) :=
  r ← get_session_ref call_id; mret (r.1).

(** [update_session(call_id, patch)].  When the session comes out of
    [_INMEM_SESSIONS], [session.update(patch)] changes the stored
    object itself. *)
Definition update_session (call_id : string) (patch : session) : M session :=
  from_redis ← (if redis_client E then
                  try_except (raw ← redis_get (_session_key call_id);
                              mret (Some (default ∅ raw)))
                             (λ _, mret None)
                else mret None);
  merged ← match from_redis with
           | Some s => mret (dict_update s patch)
           | None =>
               held ← inmem_get call_id;
               match held with
               | Some s => inmem_put call_id (dict_update s patch);;
                           mret (dict_update s patch)
               | None => mret (dict_update ∅ patch)
               end
           end;
  (if redis_client E then
     try_except (redis_set (_session_key call_id) merged) (λ _, inmem_put call_id merged)
   else inmem_put call_id merged);;
  mret merged.

(** [transcripts = session.get("transcripts") or []; transcripts.append(entry)]:
    a truthy value that is not a list has no [append]. *)
Definition appended_transcripts (s : session) (e : entry) : M (list value) :=
  match s !! "transcripts" with
  | Some (VList l) => mret (l ++ [entry_value e])%list
  | Some v => if truthy v then raise (Exception "AttributeError") else mret [entry_value e]
  | None => mret [entry_value e]
  end.

Definition append_transcript (call_id : string) (e : entry) : M unit :=
  (if redis_client E then
     try_except (redis_rpush (_transcripts_key call_id) e) (λ _, inmem_append call_id e)
   else inmem_append call_id e);;
  try_except
    ('(held, aliased) ← get_session_ref call_id;
     match held with
     | None =>
         set_session call_id
           (<["call_id" := VStr call_id]> (<["transcripts" := VList [entry_value e]]> ∅))
     | Some s =>
         ts ← appended_transcripts s e;
         let s' := <["transcripts" := VList ts]> s in
         (if aliased : bool then inmem_put call_id s' else mret tt);;
         set_session call_id s'
     end)
    (λ _, mret tt).

End WithEnv.
End session_store.

(* ===================================================================== *)
(** * Transcript store ([app/storage/transcripts_store.py]) *)
(* ===================================================================== *)

Module transcripts_store.
Section WithEnv.
Context (E : env).

(** The first lines of [save_transcript]: the caller's entry dict gets
    its [timestamp] and [created_at] filled in; no database call yet. *)
Definition save_transcript_touch (e : entry) : M entry :=
  ts ← (if PyStr.nonempty (e_timestamp e) then mret (e_timestamp e) else utcnow E);
  ca ← match e_created_at e with
       | Some c => if PyStr.nonempty c then mret c else utcnow E
       | None => utcnow E
       end;
  mret (Entry (e_call_id e) ts (e_text e) (e_source e) (Some ca)).

(** The rest of [save_transcript]: insert the row, read it back. *)
Definition save_transcript_db (e : entry) : M (option transcript_row) :=
  io_call;;
  row_id ← gets (λ w, S (length (db_transcripts w)));
  modify (λ w, set_db_transcripts
                 (db_transcripts w ++
                    [Row row_id (e_call_id e) (e_timestamp e) (e_text e) (e_source e)
                         (default "" (e_created_at e))])%list w);;
  io_call;;
  gets (λ w, List.find (λ r, bool_decide (r_id r = row_id)) (db_transcripts w)).

Definition save_transcript (e : entry) : M (option transcript_row) :=
  e' ← save_transcript_touch e; save_transcript_db e'.

(** An optional filter argument counts when it is truthy. *)
Definition given (o : option string) : option string :=
  match o with
  | Some s => if PyStr.nonempty s then Some s else None
  | None => None
  end.

(** The [WHERE] clauses of [query_transcripts]. *)
Definition row_selected (call_id from_ts to_ts : option string) (r : transcript_row) : bool :=
  match given call_id with Some c => bool_decide (r_call_id r = c) | None => true end
  && match given from_ts with Some f => String.leb f (r_timestamp r) | None => true end
  && match given to_ts with Some t => String.leb (r_timestamp r) t | None => true end.

(** [ORDER BY timestamp DESC]: [a] may come before [b]. *)
Definition newer_first (a b : transcript_row) : Prop :=
  PyStr.le (r_timestamp b) (r_timestamp a).

#[global] Instance newer_first_dec a b : Decision (newer_first a b).
Proof. unfold newer_first, PyStr.le. apply _. Defined.

(** [LIMIT n]; a negative [n] means no limit in SQLite. *)
Definition sql_limit {A} (n : Z) (l : list A) : list A :=
  if (n <? 0)%Z then l else take (Z.to_nat n) l.

Definition select_transcripts (call_id from_ts to_ts : option string) (limit : Z)
    (rows : list transcript_row) : list transcript_row :=
  sql_limit limit
    (merge_sort newer_first (List.filter (row_selected call_id from_ts to_ts) rows)).

Definition query_transcripts (call_id from_ts to_ts : option string) (limit : Z)
    : M (list transcript_row) :=
  io_call;;
  gets (λ w, select_transcripts call_id from_ts to_ts limit (db_transcripts w)).

End WithEnv.
End transcripts_store.

(* ===================================================================== *)
(** * Transcript search endpoint ([app/api/transcripts.py]) *)
(* ===================================================================== *)

Module api_transcripts.
Section WithEnv.
Context (E : env).

(** The module-level dict [_INMEM_TRANSCRIPTS = {}], in insertion
    order; nothing in the repository writes to it. *)
Definition _INMEM_TRANSCRIPTS : list (string * list entry) := [].

Inductive search_result : Type :=
| FromStore (rows : list transcript_row)
| FromMemory (entries : list entry).

(** [entries[-limit:]]. *)
Definition slice_last {A} (limit : Z) (l : list A) : list A :=
  if (0 <? limit)%Z then drop (length l - Z.to_nat limit) l
  else drop (Z.to_nat (- limit)) l.

(** [l[:limit]]. *)
Definition slice_first {A} (limit : Z) (l : list A) : list A :=
  if (0 <=? limit)%Z then take (Z.to_nat limit) l
  else take (length l - Z.to_nat (- limit)) l.

Definition in_range (from_ts to_ts : option string) (e : entry) : bool :=
  if negb (PyStr.nonempty (e_timestamp e)) then true
  else if match transcripts_store.given from_ts with
          | Some f => negb (String.leb f (e_timestamp e)) | None => false end then false
  else if match transcripts_store.given to_ts with
          | Some t => negb (String.leb (e_timestamp e) t) | None => false end then false
  else true.

Definition entry_newer_first (a b : entry) : Prop :=
  PyStr.le (e_timestamp b) (e_timestamp a).

#[global] Instance entry_newer_first_dec a b : Decision (entry_newer_first a b).
Proof. unfold entry_newer_first, PyStr.le. apply _. Defined.

(** The [except] branch: filter the in-memory dict. *)
Definition search_in_memory (store : list (string * list entry))
    (call_id from_ts to_ts : option string) (limit : Z) : list entry :=
  match transcripts_store.given call_id with
  | Some c =>
      let entries := default [] (snd <$> List.find (λ kv, bool_decide (kv.1 = c)) store) in
      slice_last limit entries
  | None =>
      let all_entries := List.concat (List.map snd store) in
      let filtered := List.filter (in_range from_ts to_ts) all_entries in
      slice_first limit (merge_sort entry_newer_first filtered)
  end.

Definition search_transcripts (call_id from_ts to_ts : option string) (limit : Z)
    : M search_result :=
  try_except
    ((if has_transcripts_store E then mret tt else raise (Exception "ImportError"));;
     results ← transcripts_store.query_transcripts call_id from_ts to_ts limit;
     mret (FromStore results))
    (λ _, mret (FromMemory (search_in_memory _INMEM_TRANSCRIPTS call_id from_ts to_ts limit))).

End WithEnv.
End api_transcripts.

(* ===================================================================== *)
(** * Escalation bridge ([app/core/media_bridge.py]) *)
(* ===================================================================== *)

Module media_bridge.

Definition escalate_to_agent (call_id : string) : session :=
  <["webrtc_url" := VStr ("/agent?call_id=" +:+ call_id)]>
  (<["note" := VStr "placeholder (implement real WebRTC bridge)"]> ∅).

End media_bridge.

(* ===================================================================== *)
(** * Orchestrator ([app/core/orchestrator.py]) *)
(* ===================================================================== *)

(** The terminal summary returned by [process_call]. *)
Record summary := Summary {
  s_call_id : string;
  s_intent : option string;
  s_reply : option string;
  s_media_out : option string;
  s_escalated : bool;
  s_agent : option session;
}.

Module orchestrator.
Section WithEnv.
Context (E : env).

(** [s.rstrip('/')]. *)
Fixpoint rstrip_slash (s : string) : string :=
  match s with
  | EmptyString => EmptyString
  | String c s' =>
      match rstrip_slash s' with
      | EmptyString => if bool_decide (c = "/"%char) then EmptyString
                       else String c EmptyString
      | r => String c r
      end
  end.

Definition _save_transcript_entry (call_id text source : string) : M unit :=
  ts ← utcnow E;
  let entry := Entry call_id ts text source None in
  if has_transcripts_store E then
    (* save_transcript has filled the entry in before it can fail *)
    entry' ← transcripts_store.save_transcript_touch E entry;
    try_except (transcripts_store.save_transcript_db entry';; mret tt)
      (λ _, try_except (session_store.append_transcript E call_id entry')
                       (λ _, mret tt))
  else
    try_except (session_store.append_transcript E call_id entry) (λ _, mret tt).

Definition _update_session (call_id : string) (patch : session) : M unit :=
  try_except (session_store.update_session E call_id patch;; mret tt)
    (λ _, try_except
            (modify (λ w, set_webhooks_INMEM_SESSIONS
                            (<[call_id := dict_update
                                            (default ∅ (webhooks_INMEM_SESSIONS w !! call_id))
                                            patch]> (webhooks_INMEM_SESSIONS w)) w))
            (λ _, mret tt)).

Definition first_flow (flows : list Flow) : option Flow :=
  match flows with f :: _ => Some f | [] => None end.

Definition _maybe_get_flow_for_call : M (option Flow) :=
  try_except (flows ← lift (flows_store_list_flows E); mret (first_flow flows))
    (λ _, try_except (store ← lift (api_FLOW_STORE E); mret (first_flow store))
                     (λ _, mret None)).

(** The rules applied when there is no responder client at all. *)
Definition fallback_rules (asr_text : string) : llm_result :=
  let text := str_lower E asr_text in
  if PyStr.str_in "balance" text then
    LlmResult (Some "account_balance") (Some "Your balance is $42 (fallback).") None
  else if PyStr.str_in "agent" text || PyStr.str_in "human" text
          || PyStr.str_in "representative" text then
    LlmResult (Some "connect_agent") (Some "Connecting you to an agent.") (Some true)
  else
    LlmResult (Some "unknown") (Some "I didn't get that. Can you repeat?") None.

(** Step 1. *)
Definition transcribe (media_url : option string) : M string :=
  match asr E with
  | Some transcribe_fn =>
      try_except (lift (transcribe_fn media_url))
                 (λ _, mret "stubbed transcript: could not run ASR")
  | None => mret "stubbed transcript (no ASR client available)"
  end.

(** Step 2. *)
Definition respond (asr_text call_id : string) : M llm_result :=
  match llm E with
  | Some generate_response =>
      try_except (lift (generate_response asr_text call_id))
                 (λ _, mret (LlmResult (Some "unknown")
                               (Some "Sorry, I couldn't process that right now.") None))
  | None => mret (fallback_rules asr_text)
  end.

(** Step 3: [reply_text = fe_result.get("reply", reply_text)] and
    [escalate = fe_result.get("escalate", escalate)]. *)
Definition apply_flow_result (fe_result : flow_result)
    (reply_text : option string) (escalate : bool) : option string * bool :=
  (match fe_reply fe_result with Some r => r | None => reply_text end,
   match fe_escalate fe_result with Some b => b | None => escalate end).

Definition flow_override (intent : option string) (reply_text : option string)
    (escalate : bool) : M (option string * bool) :=
  if has_flow_engine E then
    try_except
      (flow ← _maybe_get_flow_for_call;
       match flow with
       | Some f => mret (apply_flow_result (flow_engine.run_flow f intent) reply_text escalate)
       | None => mret (reply_text, escalate)
       end)
      (λ _, mret (reply_text, escalate))
  else mret (reply_text, escalate).

(** Step 4. *)
Definition synthesize (reply_text : option string) (call_id : string) : M (option string) :=
  match tts E with
  | Some synthesize_fn =>
      try_except
        (media_path ← lift (synthesize_fn reply_text call_id);
         match media_path with
         | Some p =>
             if PyStr.nonempty p then
               mret (Some (rstrip_slash (MEDIA_BASE_URL E) +:+ "/" +:+ path_name E p))
             else mret None
         | None => mret None
         end)
        (λ _, mret None)
  | None => mret None
  end.

(** Step 5. *)
(** The payload used when the bridge cannot be imported or raises. *)
Definition no_bridge_payload : session :=
  <["note" := VStr "escalation_requested_but_no_bridge"]> ∅.

Definition escalation (escalate : bool) (call_id : string) : M (option session) :=
  if escalate then
    try_except
      (match media_bridge E with
       | Some escalate_to_agent => p ← lift (escalate_to_agent call_id); mret (Some p)
       | None => raise (Exception "ImportError")
       end)
      (λ _, mret (Some no_bridge_payload))
  else mret None.

(** Step 6: the patch handed to [_update_session]. *)
Definition final_patch (intent reply_text media_out : option string)
    (agent_payload : option session) (escalate : bool) (last_update : string) : session :=
  <["status" := VStr (if negb escalate then "completed" else "escalated")]>
  (<["last_intent" := opt_str intent]>
  (<["last_reply" := opt_str reply_text]>
  (<["media_out" := opt_str media_out]>
  (<["agent" := opt_dict agent_payload]>
  (<["last_update" := VStr last_update]> ∅))))).

(** Steps 1 and 2 with their two transcript writes. *)
Definition transcribe_and_respond (payload : CallWebhook) : M (string * llm_result) :=
  let call_id := p_call_id payload in
  asr_text ← transcribe (p_media_url payload);
  _save_transcript_entry call_id asr_text "asr";;
  llm_result ← respond asr_text call_id;
  _save_transcript_entry call_id (default "" (lr_reply llm_result)) "llm";;
  mret (asr_text, llm_result).

(** Steps 3 to 6. *)
Definition override_and_finish (payload : CallWebhook) (llm_result : llm_result)
    : M summary :=
  let call_id := p_call_id payload in
  let intent := lr_intent llm_result in
  '(reply_text, escalate) ←
     flow_override intent (Some (default "" (lr_reply llm_result)))
                   (bool_of (lr_escalate llm_result));
  media_out ← synthesize reply_text call_id;
  agent_payload ← escalation escalate call_id;
  last_update ← utcnow E;
  _update_session call_id
    (final_patch intent reply_text media_out agent_payload escalate last_update);;
  mret (Summary call_id intent reply_text media_out escalate agent_payload).

Definition process_call (payload : CallWebhook) : M summary :=
  '(_, llm_result) ← transcribe_and_respond payload;
  override_and_finish payload llm_result.

End WithEnv.
End orchestrator.

(* ===================================================================== *)
(** * Inbound call webhook ([app/api/webhooks.py]) *)
(* ===================================================================== *)

Module webhooks.
Section WithEnv.
Context (E : env).

(** The JSON body of the 200 response. *)
Record accepted := Accepted { a_status : string; a_call_id : string }.

Definition new_session (payload : CallWebhook) (created_at last_update : string) : session :=
  <["call_id" := VStr (p_call_id payload)]>
  (<["from" := opt_str (p_from payload)]>
  (<["to" := opt_str (p_to payload)]>
  (<["status" := VStr "received"]>
  (<["created_at" := VStr created_at]>
  (<["last_update" := VStr last_update]>
  (<["transcripts" := VList []]>
  (<["last_intent" := VNone]> ∅))))))).

Definition add_task (t : background_task) : M unit :=
  modify (λ w, set_scheduled (scheduled w ++ [t])%list w).

Definition inbound_call (payload : CallWebhook) (x_webhook_secret : option string)
    : M accepted :=
  (if PyStr.nonempty (WEBHOOK_SECRET E) && bool_decide (x_webhook_secret ≠ None) then
     if bool_decide (x_webhook_secret ≠ Some (WEBHOOK_SECRET E))
     then raise (HTTPException 403 "Invalid webhook secret")
     else mret tt
   else mret tt);;
  let call_id := p_call_id payload in
  created_at ← utcnow E;
  last_update ← utcnow E;
  let session := new_session payload created_at last_update in
  try_except (session_store.set_session E call_id session)
    (λ _, modify (λ w, set_webhooks_INMEM_SESSIONS
                         (<[call_id := session]> (webhooks_INMEM_SESSIONS w)) w));;
  (if has_orchestrator E then add_task (TaskProcessCall payload)
   else add_task (TaskStubProcessCall payload));;
  mret (Accepted "accepted" call_id).

End WithEnv.
End webhooks.

(* ===================================================================== *)
(** * Vocabulary of the properties *)
(* ===================================================================== *)

(** Case-insensitive substring of ASCII text: some stretch of [t] lowers
    to [kw]. *)
Definition contains_ci (kw t : string) : Prop :=
  ∃ a m b, t = a +:+ m +:+ b ∧ PyStr.ascii_lower m = kw.

(** [kw in t]: the keyword is a stretch of the text. *)
Definition occurs_in (kw t : string) : Prop := ∃ a b, t = a +:+ kw +:+ b.

(** [wp m w Q X]: run from [w], [m] returns a value and leaves a state
    that satisfy [Q], or raises an exception and leaves a state that
    satisfy [X]. *)
Definition wp {A} (m : M A) (w : world)
    (Q : A → world → Prop) (X : exn → world → Prop) : Prop :=
  match m w with
  | (Ret a, w') => Q a w'
  | (Raise e, w') => X e w'
  end.

(** [returns m w Q]: [m] does not raise from [w], and [Q] holds of what
    it returns. *)
Definition returns {A} (m : M A) (w : world) (Q : A → world → Prop) : Prop :=
  wp m w Q (λ _ _, False).

(** The session the store holds for a call: the Redis document when a
    Redis client is configured, the in-memory dict otherwise. *)
Definition stored_session (E : env) (w : world) (call_id : string) : option session :=
  if redis_client E then redis_sessions w !! session_store._session_key call_id
  else INMEM_SESSIONS w !! call_id.

(** The status field of the session the store holds for the call. *)
Definition stored_status (E : env) (w : world) (call_id : string) : option value :=
  s ← stored_session E w call_id; s !! "status".

(** No scheduled failure is left once none was. *)
Definition quiet (w w' : world) : Prop := faults w = [] → faults w' = [].

(** The transcript logs, the clock and the scheduled tasks are as before. *)
Definition same_logs (w w' : world) : Prop :=
  clock w' = clock w ∧ db_transcripts w' = db_transcripts w ∧
  INMEM_TRANSCRIPTS w' = INMEM_TRANSCRIPTS w ∧ redis_lists w' = redis_lists w ∧
  scheduled w' = scheduled w ∧ quiet w w'.

(** [keeps R m]: whether [m] returns or raises, the state it leaves is
    [R]-related to the one it started from. *)
Definition keeps {A} (R : world → world → Prop) (m : M A) : Prop :=
  ∀ w, wp m w (λ _ w', R w w') (λ _ w', R w w').

(** A computation that cannot raise. *)
Definition total {A} (m : M A) : Prop := ∀ w, returns m w (λ _ _, True).

(** What a transcript entry says, whichever store holds it. *)
Record log_item := LogItem {
  li_call_id : string;
  li_timestamp : string;
  li_text : string;
  li_source : string;
}.

Definition row_item (r : transcript_row) : log_item :=
  LogItem (r_call_id r) (r_timestamp r) (r_text r) (r_source r).
Definition entry_item (e : entry) : log_item :=
  LogItem (e_call_id e) (e_timestamp e) (e_text e) (e_source e).

(** The three places a transcript entry can be written to. *)
Definition db_log (w : world) : list log_item := row_item <$> db_transcripts w.
Definition mem_log (w : world) (call_id : string) : list log_item :=
  entry_item <$> default [] (INMEM_TRANSCRIPTS w !! call_id).
Definition redis_log (w : world) (call_id : string) : list log_item :=
  entry_item <$> default [] (redis_lists w !! session_store._transcripts_key call_id).

Definition grew (l l' : list log_item) (it : log_item) : Prop :=
  l' = l ∨ l' = (l ++ [it])%list.

(** Between [w] and [w'] the item was appended at the end of at least one
    of the logs of the call, and nothing else was written to them. *)
Definition appended (call_id : string) (it : log_item) (w w' : world) : Prop :=
  grew (db_log w) (db_log w') it ∧
  grew (mem_log w call_id) (mem_log w' call_id) it ∧
  grew (redis_log w call_id) (redis_log w' call_id) it ∧
  (db_log w' = (db_log w ++ [it])%list ∨
   mem_log w' call_id = (mem_log w call_id ++ [it])%list ∨
   redis_log w' call_id = (redis_log w call_id ++ [it])%list).

(** Everything but the clock is as before, and the clock did not go back. *)
Definition clock_only (w w' : world) : Prop :=
  (clock w ≤ clock w')%nat ∧ faults w' = faults w ∧
  db_transcripts w' = db_transcripts w ∧ INMEM_TRANSCRIPTS w' = INMEM_TRANSCRIPTS w ∧
  redis_lists w' = redis_lists w ∧ scheduled w' = scheduled w ∧
  INMEM_SESSIONS w' = INMEM_SESSIONS w ∧ redis_sessions w' = redis_sessions w.

(** The clock does not go back between two readings. *)
Definition clock_monotone (E : env) : Prop :=
  ∀ i j, (i ≤ j)%nat → PyStr.le (now E i) (now E j).

(** The flow [_maybe_get_flow_for_call] hands to the engine. *)
Definition selected_flow (E : env) : option Flow :=
  match flows_store_list_flows E with
  | Ret flows => orchestrator.first_flow flows
  | Raise _ =>
      match api_FLOW_STORE E with
      | Ret store => orchestrator.first_flow store
      | Raise _ => None
      end
  end.

(** The node carries an intent-match key and it equals the given intent;
    an empty string is no key and no intent, as for [dict.get] under [if]. *)
Definition intent_key_is (intent : option string) (n : FlowNode) : Prop :=
  ∃ k, n_intent n = Some k ∧ intent = Some k ∧ k ≠ "".

(** A node with identifier [start] and a prompt-bearing type. *)
Definition start_prompt_node (n : FlowNode) : Prop :=
  n_id n = "start" ∧ (n_type n = "ask" ∨ n_type n = "say").

(** The row passes the filters of the query: an argument that is absent
    or empty does not filter. *)
Definition in_window (call_id from_ts to_ts : option string) (r : transcript_row) : Prop :=
  (∀ c, call_id = Some c → c ≠ "" → r_call_id r = c) ∧
  (∀ f, from_ts = Some f → f ≠ "" → PyStr.le f (r_timestamp r)) ∧
  (∀ t, to_ts = Some t → t ≠ "" → PyStr.le (r_timestamp r) t).

Module demo.

Fixpoint zeros (k : nat) : string :=
  match k with O => EmptyString | S k' => String "0" (zeros k') end.

(** A clock whose readings grow. *)
Definition tick (k : nat) : string := "2024-01-01T00:00:00." +:+ zeros k.

Definition import_error {A} : outcome A := Raise (Exception "ImportError").

(** No adapter, no flow engine, no stores beyond the in-memory ones. *)
Definition no_adapters : env :=
  Env tick false "changeme" "http://localhost:8000/media" (λ p, p)
      None None None false import_error import_error false None true PyStr.ascii_lower.

(** Every adapter is there and every call to one raises. *)
Definition failing_adapters : env :=
  Env tick true "changeme" "http://localhost:8000/media" (λ p, p)
      (Some (λ _, Raise (Exception "asr")))
      (Some (λ _ _, Raise (Exception "llm")))
      (Some (λ _ _, Raise (Exception "tts")))
      true import_error import_error true
      (Some (λ _, Raise (Exception "bridge"))) true PyStr.ascii_lower.

(** The caller asks for an agent; the shipped bridge is available. *)
Definition agent_request : env :=
  Env tick false "changeme" "http://localhost:8000/media" (λ p, p)
      (Some (λ _, Ret "I need an agent")) None None false
      import_error import_error false
      (Some (λ c, Ret (media_bridge.escalate_to_agent c))) true PyStr.ascii_lower.


(** A stored flow with action nodes only. *)
Definition actions_flow : Flow :=
  MkFlow "faq-v1" None None
    [Node "account" "action" None (Some "account_balance")
          (Some "Your balance is $42") (Some false);
     Node "support" "action" None (Some "connect_agent")
          (Some "Connecting to agent") (Some true)].

(** The flow of the engine's docstring, with a second node for the
    intent [account_balance]. *)
Definition faq_flow : Flow :=
  MkFlow "faq-v1" None None
    [Node "start" "ask" (Some "How can I help?") None None (Some false);
     Node "account" "action" None (Some "account_balance")
          (Some "Your balance is $42") (Some false);
     Node "account2" "action" None (Some "account_balance")
          (Some "Second answer") (Some true);
     Node "support" "action" None (Some "connect_agent")
          (Some "Connecting to agent") (Some true)].

(** A flow engine with [actions_flow] stored; the caller says hello. *)
Definition with_flow : env :=
  Env tick false "changeme" "http://localhost:8000/media" (λ p, p)
      (Some (λ _, Ret "hello there")) None None true
      (Ret [actions_flow]) import_error false None true PyStr.ascii_lower.

Definition call : CallWebhook :=
  Payload "call-1" (Some "+15550001") (Some "+15550002") None (Some "inbound").

Definition empty_world : world := World [] 0 [] ∅ ∅ ∅ ∅ ∅ [].

(** The state the webhook leaves when it accepts [call]. *)
Definition received (E : env) : world := (webhooks.inbound_call E call None empty_world).2.

(** Redis there, and its next two calls fail. *)
Definition flaky_world : world := World [true; true] 0 [] ∅ ∅ ∅ ∅ ∅ [].

Definition rows : list transcript_row :=
  [Row 1 "call-1" "2024-01-01T08:00:00" "hello" "asr" "2024-01-01T08:00:00";
   Row 2 "call-1" "2024-01-01T08:00:01" "Hello! How can I help you today?" "llm"
       "2024-01-01T08:00:01";
   Row 3 "call-2" "2024-01-02T09:30:00" "my bill" "asr" "2024-01-02T09:30:00";
   Row 4 "call-1" "2023-12-31T23:59:59" "old" "asr" "2023-12-31T23:59:59"].

Definition db_world : world := World [] 0 rows ∅ ∅ ∅ ∅ ∅ [].

End demo.

(* ===================================================================== *)
(** * Session endpoint ([app/api/sessions.py]) *)
(* ===================================================================== *)

Module api_sessions.
Section WithEnv.
Context (E : env).

(** The module-level dict [_INMEM_SESSIONS = {}]; nothing writes to it. *)
Definition _INMEM_SESSIONS : gmap string session := ∅.

(** [GET /{call_id}]: an absent session and an empty one are both
    [not session]. *)
Definition get_session (call_id : string) : M session :=
  found ← try_except (session_store.get_session E call_id)
                     (λ _, mret (_INMEM_SESSIONS !! call_id));
  match found with
  | Some s => if truthy (VDict s) then mret s
              else raise (HTTPException 404 "session not found")
  | None => raise (HTTPException 404 "session not found")
  end.

End WithEnv.
End api_sessions.

(* ===================================================================== *)
(** * Vocabulary of the further properties *)
(* ===================================================================== *)

(** The session store answers: it is the in-memory one, or no failure of
    Redis is scheduled. *)
Definition store_ok (E : env) (w : world) : Prop :=
  redis_client E = false ∨ faults w = [].

(** The transcript list the session store holds for a call: the Redis
    list when a Redis client is configured, the in-memory list otherwise. *)
Definition stored_transcripts (E : env) (w : world) (call_id : string) : list entry :=
  if redis_client E then default [] (redis_lists w !! session_store._transcripts_key call_id)
  else default [] (INMEM_TRANSCRIPTS w !! call_id).

(** The session [append_transcript] leaves for a call, from the one it
    found: a new session when there was none, the session with the entry
    added to its [transcripts] list, or the session as it was when
    [transcripts] holds a truthy value that is not a list. *)
Definition with_transcript (call_id : string) (e : entry) (held : option session) : session :=
  match held with
  | None => <["call_id" := VStr call_id]> (<["transcripts" := VList [entry_value e]]> ∅)
  | Some s =>
      match s !! "transcripts" with
      | Some (VList l) => <["transcripts" := VList (l ++ [entry_value e])%list]> s
      | Some v => if truthy v then s else <["transcripts" := VList [entry_value e]]> s
      | None => <["transcripts" := VList [entry_value e]]> s
      end
  end.

(** Nothing but the sessions of the store differs between the states. *)
Definition sessions_only (w w' : world) : Prop :=
  faults w' = faults w ∧ clock w' = clock w ∧ db_transcripts w' = db_transcripts w ∧
  redis_lists w' = redis_lists w ∧ INMEM_TRANSCRIPTS w' = INMEM_TRANSCRIPTS w ∧
  webhooks_INMEM_SESSIONS w' = webhooks_INMEM_SESSIONS w ∧ scheduled w' = scheduled w.

(** The session of the call lists, under [transcripts], the entries the
    session store holds in the transcript list of the call. *)
Definition transcripts_agree (E : env) (w : world) (call_id : string) : Prop :=
  ∃ s, stored_session E w call_id = Some s ∧
       s !! "transcripts" = Some (VList (entry_value <$> stored_transcripts E w call_id)).

(** The identifiers of the table are the ones the database gave out: the
    row inserted as the [i]-th has identifier [i]. *)
Definition table_ids_ok (rows : list transcript_row) : Prop :=
  ∀ i r, rows !! i = Some r → r_id r = S i.

(** The next two calls that leave the process do not fail: for
    [save_transcript], the insert and the read-back. *)
Definition db_ok (w : world) : Prop := true ∉ take 2 (faults w).

(** The sessions and transcript lists of the session store are as before,
    and no failure is scheduled if none was. *)
Definition store_kept (w w' : world) : Prop :=
  redis_sessions w' = redis_sessions w ∧ INMEM_SESSIONS w' = INMEM_SESSIONS w ∧
  redis_lists w' = redis_lists w ∧ INMEM_TRANSCRIPTS w' = INMEM_TRANSCRIPTS w ∧
  quiet w w'.

(** What one transcript write does to the session store: with
    [added = Some e] the entry went to the store, to the list of the call
    and into its session; with [added = None] the store is as before. *)
Definition session_step (E : env) (call_id : string) (added : option entry)
    (w w' : world) : Prop :=
  stored_session E w' call_id
    = match added with
      | Some e => Some (with_transcript call_id e (stored_session E w call_id))
      | None => stored_session E w call_id
      end ∧
  stored_transcripts E w' call_id
    = (stored_transcripts E w call_id ++ option_list added)%list ∧
  (∀ c', c' ≠ call_id →
     stored_session E w' c' = stored_session E w c' ∧
     stored_transcripts E w' c' = stored_transcripts E w c').

(** The keys of the patch [process_call] writes at the end. *)
Definition final_patch_keys : list string :=
  ["status"; "last_intent"; "last_reply"; "media_out"; "agent"; "last_update"].

(** A run of [k] slashes. *)
Fixpoint slashes (k : nat) : string :=
  match k with O => EmptyString | S k' => String "/" (slashes k') end.

(* ===================================================================== *)
(** * Flow store ([app/storage/flows_store.py]) and flow endpoints
      ([app/api/flows.py]) *)
(* ===================================================================== *)

(** A row of the SQL table [flows], primary key [flow_id]; the column
    [nodes_json] holds the nodes as JSON text, which decodes to the nodes
    that were encoded.  The dicts kept in [api.flows._FLOW_STORE] have the
    same fields. *)
Record flow_row := FlowRow {
  fr_flow : Flow;
  fr_updated_at : string;
}.

(** The state the flow store and the flow endpoints work on. *)
Record flows_world := FlowsWorld {
  fl_faults : list bool;                     (* outcome of the next database calls *)
  fl_clock : nat;                            (* clock readings taken so far *)
  flows_table : list flow_row;               (* SQL table [flows], in insertion order *)
  FLOW_STORE : list (string * flow_row);     (* api.flows._FLOW_STORE, in insertion order *)
}.

Definition set_fl_faults (f : list bool) (w : flows_world) : flows_world :=
  FlowsWorld f (fl_clock w) (flows_table w) (FLOW_STORE w).
Definition set_fl_clock (c : nat) (w : flows_world) : flows_world :=
  FlowsWorld (fl_faults w) c (flows_table w) (FLOW_STORE w).
Definition set_flows_table (t : list flow_row) (w : flows_world) : flows_world :=
  FlowsWorld (fl_faults w) (fl_clock w) t (FLOW_STORE w).
Definition set_FLOW_STORE (s : list (string * flow_row)) (w : flows_world) : flows_world :=
  FlowsWorld (fl_faults w) (fl_clock w) (flows_table w) s.

(** Computations over the flows state. *)
Definition F (A : Type) : Type := flows_world → outcome A * flows_world.

Definition F_pure {A} (a : A) : F A := fun w => (Ret a, w).
Definition F_raise {A} (e : exn) : F A := fun w => (Raise e, w).
Definition F_then {A B} (m : F A) (k : A → F B) : F B :=
  fun w => match m w with
           | (Ret a, w') => k a w'
           | (Raise e, w') => (Raise e, w')
           end.
Definition F_try {A} (body : F A) (handler : exn → F A) : F A :=
  fun w => match body w with
           | (Ret a, w') => (Ret a, w')
           | (Raise e, w') => handler e w'
           end.
Definition F_gets {A} (f : flows_world → A) : F A := fun w => (Ret (f w), w).
Definition F_modify (f : flows_world → flows_world) : F unit := fun w => (Ret tt, f w).

#[global] Instance F_ret : MRet F := @F_pure.
#[global] Instance F_bind : MBind F := fun A B k m => F_then m k.

(** One call to the database. *)
Definition db_call : F unit :=
  fun w => match fl_faults w with
           | true :: fs => (Raise (Exception "I/O error"), set_fl_faults fs w)
           | false :: fs => (Ret tt, set_fl_faults fs w)
           | [] => (Ret tt, w)
           end.

Definition F_utcnow (E : env) : F string :=
  fun w => (Ret (now E (fl_clock w)), set_fl_clock (S (fl_clock w)) w).

Module flows_store.
Section WithEnv.
Context (E : env).

(** [SELECT ... WHERE flow_id = :flow_id] read with [fetch_one]. *)
Definition select_flow (fid : string) (t : list flow_row) : option flow_row :=
  List.find (λ r, bool_decide (flow_id (fr_flow r) = fid)) t.

(** [UPDATE flows SET name, description, nodes_json, updated_at
    WHERE flow_id = :flow_id]. *)
Definition update_flow (f : Flow) (updated_at : string) (t : list flow_row)
    : list flow_row :=
  List.map (λ r, if bool_decide (flow_id (fr_flow r) = flow_id f)
                 then FlowRow f updated_at else r) t.

(** [save_flow(flow_obj)]; the result is [None] for the empty dict. *)
Definition save_flow (f : Flow) (updated_at : option string) : F (option flow_row) :=
  if negb (PyStr.nonempty (flow_id f)) then
    F_raise (Exception "flow_obj must contain flow_id")
  else
    now ← match updated_at with
          | Some u => if PyStr.nonempty u then mret u else F_utcnow E
          | None => F_utcnow E
          end;
    db_call;;
    F_modify (λ w, set_flows_table (update_flow f now (flows_table w)) w);;
    db_call;;
    existing ← F_gets (λ w, select_flow (flow_id f) (flows_table w));
    match existing with
    | Some r => mret (Some r)
    | None =>
        db_call;;
        F_modify (λ w, set_flows_table (flows_table w ++ [FlowRow f now])%list w);;
        db_call;;
        F_gets (λ w, select_flow (flow_id f) (flows_table w))
    end.

(** [ORDER BY updated_at DESC]: [a] may come before [b]. *)
Definition flow_newer_first (a b : flow_row) : Prop :=
  PyStr.le (fr_updated_at b) (fr_updated_at a).

#[global] Instance flow_newer_first_dec a b : Decision (flow_newer_first a b).
Proof. unfold flow_newer_first, PyStr.le. apply _. Defined.

Definition list_flows : F (list flow_row) :=
  db_call;; F_gets (λ w, merge_sort flow_newer_first (flows_table w)).

Definition get_flow (fid : string) : F (option flow_row) :=
  db_call;; F_gets (λ w, select_flow fid (flows_table w)).

End WithEnv.
End flows_store.

Module api_flows.
Section WithEnv.
Context (E : env).
(** Whether [app.storage.flows_store] imports. *)
Context (has_flows_store : bool).

(** [d[k] = v] on a dict kept in insertion order. *)
Definition dict_set (k : string) (v : flow_row) (d : list (string * flow_row))
    : list (string * flow_row) :=
  if existsb (λ kv, bool_decide (kv.1 = k)) d
  then List.map (λ kv, if bool_decide (kv.1 = k) then (k, v) else kv) d
  else (d ++ [(k, v)])%list.

(** [d.get(k)]. *)
Definition dict_get (k : string) (d : list (string * flow_row)) : option flow_row :=
  snd <$> List.find (λ kv, bool_decide (kv.1 = k)) d.

Definition import_flows_store : F unit :=
  if has_flows_store then mret tt else F_raise (Exception "ImportError").

(** [POST /flows]; the answer is [{"status": "ok", "flow_id": ...}]. *)
Definition upsert_flow (f : Flow) : F (string * string) :=
  updated_at ← F_utcnow E;
  F_try (import_flows_store;; flows_store.save_flow E f (Some updated_at);; mret tt)
        (λ _, F_modify (λ w, set_FLOW_STORE
                               (dict_set (flow_id f) (FlowRow f updated_at) (FLOW_STORE w)) w));;
  mret ("ok", flow_id f).

(** [GET /flows]. *)
Definition list_flows : F (list flow_row) :=
  F_try (import_flows_store;; flows_store.list_flows)
        (λ _, F_gets (λ w, snd <$> FLOW_STORE w)).

(** [GET /flows/{flow_id}]. *)
Definition get_flow (fid : string) : F flow_row :=
  found ← F_try (import_flows_store;; flows_store.get_flow fid)
                (λ _, F_gets (λ w, dict_get fid (FLOW_STORE w)));
  match found with
  | Some r => mret r
  | None => F_raise (HTTPException 404 "flow not found")
  end.

End WithEnv.
End api_flows.

(** No two rows of the table have the same [flow_id]. *)
Definition flow_ids_unique (t : list flow_row) : Prop :=
  NoDup ((λ r, flow_id (fr_flow r)) <$> t).

(** The table after a successful [save_flow]: the rows of the flow
    rewritten, or one row added when there was none. *)
Definition upserted (f : Flow) (updated_at : string) (t : list flow_row) : list flow_row :=
  match flows_store.select_flow (flow_id f) t with
  | Some _ => flows_store.update_flow f updated_at t
  | None => (t ++ [FlowRow f updated_at])%list
  end.

(* ===================================================================== *)
(** * The stub run of the webhook module ([app/api/webhooks.py]) *)
(* ===================================================================== *)

Module webhooks_stub.
Section WithEnv.
Context (E : env).

Definition stub_transcript : string := "stubbed transcript: hello, I want account balance".

(** The patch the stub hands to [update_session]. *)
Definition stub_patch (last_update : string) : session :=
  <["status" := VStr "answered"]>
  (<["last_intent" := VStr "account_balance"]>
  (<["last_reply" := VStr "Your balance is $42 (stubbed)"]>
  (<["last_update" := VStr last_update]> ∅))).

(** [_INMEM_TRANSCRIPTS.setdefault(call_id, []).append(entry)] on the
    dict of the webhook module. *)
Definition remember (call_id : string) (e : entry) (tr : gmap string (list entry))
    : gmap string (list entry) :=
  <[call_id := (default [] (tr !! call_id) ++ [e])%list]> tr.

(** [_stub_process_call(payload)], run when no orchestrator imports.  The
    dict [_INMEM_TRANSCRIPTS] of the webhook module is passed in and
    returned. *)
Definition _stub_process_call (payload : CallWebhook) (tr : gmap string (list entry))
    : M (gmap string (list entry)) :=
  let call_id := p_call_id payload in
  ts ← utcnow E;
  let entry := Entry call_id ts stub_transcript "asr_stub" None in
  tr' ← (if has_transcripts_store E then
           entry' ← transcripts_store.save_transcript_touch E entry;
           try_except (transcripts_store.save_transcript_db entry';; mret tr)
                      (λ _, mret (remember call_id entry' tr))
         else mret (remember call_id entry tr));
  try_except
    (last_update ← utcnow E;
     session_store.update_session E call_id (stub_patch last_update);; mret tt)
    (λ _, last_update ← utcnow E;
          modify (λ w, set_webhooks_INMEM_SESSIONS
                         (<[call_id := dict_update
                                         (default ∅ (webhooks_INMEM_SESSIONS w !! call_id))
                                         (stub_patch last_update)]>
                            (webhooks_INMEM_SESSIONS w)) w));;
  mret tr'.

End WithEnv.
End webhooks_stub.

(** The fallback dict of sessions of the webhook module is as before. *)
Definition web_kept (w w' : world) : Prop :=
  webhooks_INMEM_SESSIONS w' = webhooks_INMEM_SESSIONS w.

(* ===================================================================== *)
(** * The service under its default settings *)
(* ===================================================================== *)

Module shipped.

(** What [ASRClient.transcribe] returns in stub mode, the default, and
    for every call without media ([asr_client.py], lines 46 to 48). *)
Definition canned_transcript : string :=
  "stubbed transcript: hello I want my account balance".

(** The service as configured by default ([ASR_MODE=stub],
    [LLM_MODE=openai] with no [openai] package to import,
    [TTS_MODE=stub], no Redis, a database that answers), with a given
    clock and the flows the flow store lists: the transcriber returns its
    canned transcript, the responder answers the texts of the examples
    from its keyword rules, the synthesizer returns no file, and every
    optional module imports. *)
Definition configured (clock : nat → string) (flows : list Flow) : env :=
  Env clock false "changeme" "http://localhost:8000/media" (λ p, p)
      (Some (λ _, Ret canned_transcript))
      (Some (λ text _, Ret (llm_client._rule_based_response PyStr.ascii_lower text)))
      (Some (λ _ _, Ret None))
      true (Ret flows) (Ret []) true
      (Some (λ c, Ret (media_bridge.escalate_to_agent c))) true PyStr.ascii_lower.

Definition service (flows : list Flow) : env := configured demo.tick flows.

(** A flow as [POST /flows] accepts it, with one node, for the intent
    [connect_agent], and no start node. *)
Definition support_flow : Flow :=
  MkFlow "support-v1" None None
    [Node "support" "action" None (Some "connect_agent")
          (Some "Connecting to agent") (Some true)].

(** A clock set back by a second after its first reading. *)
Definition clock_set_back (k : nat) : string :=
  match k with
  | O => "2024-01-01T00:00:01"
  | S _ => "2024-01-01T00:00:00"
  end.

End shipped.

(* ===================================================================== *)
(** * Properties *)
(* ===================================================================== *)

(** ** Strings *)

Section StringFacts.
Import PyStr.

Lemma append_nil (b : string) : "" +:+ b = b.
Proof. reflexivity. Qed.

Lemma append_cons (c : ascii) (a b : string) :
  String c a +:+ b = String c (a +:+ b).
Proof. reflexivity. Qed.

Lemma prefix_spec (a s : string) :
  String.prefix a s = true ↔ ∃ b, s = a +:+ b.
Proof.
  revert s. induction a as [|c a IH]; intros s.
  - split; [intros _; by exists s | by destruct s].
  - destruct s as [|d s]; simpl.
    + split; [done | intros [b Hb]; discriminate].
    + destruct (Ascii.ascii_dec c d) as [->|Hne].
      * rewrite IH. split; intros [b Hb]; exists b;
          rewrite append_cons in *; congruence.
      * split; [done | intros [b Hb]; rewrite append_cons in Hb; congruence].
Qed.

Lemma str_in_eq (sub s : string) :
  str_in sub s =
    if String.prefix sub s then true
    else match s with EmptyString => false | String _ s' => str_in sub s' end.
Proof. by destruct s. Qed.

Lemma str_in_spec (sub s : string) :
  str_in sub s = true ↔ ∃ a b, s = a +:+ sub +:+ b.
Proof.
  induction s as [|c s IH]; rewrite str_in_eq.
  - destruct (String.prefix sub "") eqn:Hp.
    + apply prefix_spec in Hp as [b Hb]. split; [intros _ | done].
      by exists "", b.
    + split; [done | intros ([|x a] & b & Hab); [|discriminate]].
      rewrite append_nil in Hab.
      assert (String.prefix sub "" = true) by (apply prefix_spec; eauto).
      congruence.
  - destruct (String.prefix sub (String c s)) eqn:Hp.
    + apply prefix_spec in Hp as [b Hb]. split; [intros _ | done].
      by exists "", b.
    + rewrite IH. split.
      * intros (a & b & ->). by exists (String c a), b.
      * intros ([|x a] & b & Hab).
        -- rewrite append_nil in Hab.
           assert (String.prefix sub (String c s) = true) by (apply prefix_spec; eauto).
           congruence.
        -- rewrite append_cons in Hab. injection Hab as _ ->. eauto.
Qed.

Lemma lower_app (a b : string) :
  ascii_lower (a +:+ b) = ascii_lower a +:+ ascii_lower b.
Proof.
  induction a as [|c a IH]; [done|].
  rewrite append_cons. simpl. by rewrite IH.
Qed.

Lemma lower_split (t x y : string) :
  ascii_lower t = x +:+ y → ∃ a b, t = a +:+ b ∧ ascii_lower a = x ∧ ascii_lower b = y.
Proof.
  revert t. induction x as [|c x IH]; intros t H.
  - by exists "", t.
  - rewrite append_cons in H.
    destruct t as [|d t]; simpl in H; [discriminate|].
    injection H as Hc Ht. destruct (IH _ Ht) as (a & b & -> & Ha & Hb).
    exists (String d a), b. simpl. by rewrite Hc, Ha.
Qed.

Lemma str_in_lower (kw t : string) :
  str_in kw (ascii_lower t) = true ↔ contains_ci kw t.
Proof.
  rewrite str_in_spec. split.
  - intros (x & y & H).
    apply lower_split in H as (a & r & -> & _ & Hr).
    apply lower_split in Hr as (m & b & -> & Hm & _).
    by exists a, m, b.
  - intros (a & m & b & -> & <-). exists (ascii_lower a), (ascii_lower b).
    by rewrite !lower_app.
Qed.

Lemma str_in_lower_false (kw t : string) :
  str_in kw (ascii_lower t) = false ↔ ¬ contains_ci kw t.
Proof. rewrite <- str_in_lower. by destruct (str_in kw (ascii_lower t)). Qed.

End StringFacts.

(** ** Keyword rules *)

Lemma str_in_false (kw t : string) : PyStr.str_in kw t = false ↔ ¬ occurs_in kw t.
Proof. unfold occurs_in. rewrite <- str_in_spec. by destruct (PyStr.str_in kw t). Qed.

Ltac rule_cases :=
  repeat match goal with
         | |- context [PyStr.str_in ?k ?t] =>
             let H := fresh "Hk" in
             destruct (PyStr.str_in k t) eqn:H;
             [apply str_in_spec in H | apply str_in_false in H]; simpl
         end.

(** C4.  The keyword fallback of the responder, [_rule_based_response],
    applies the ordered, first-match-wins table of the specification to
    every text: "balance" or "account" gives [account_balance]; otherwise
    "payment" or "bill" gives [payments]; otherwise "agent", "human" or
    "representative" gives [connect_agent] with escalate set; otherwise
    "hello" or "hi" gives [greeting]; any other text gives [unknown] with
    a repeat-please reply.  A keyword counts as contained, whatever the
    case, when it occurs in [text.lower()]; the statement holds for every
    lowering function, the one of the interpreter among them. *)
Theorem C4_keyword_rule_table (lower : string → string) (text : string) :
  let has kw := occurs_in kw (lower text) in
  let r := llm_client._rule_based_response lower text in
  (has "balance" ∨ has "account" → lr_intent r = Some "account_balance") ∧
  (¬ (has "balance" ∨ has "account") → has "payment" ∨ has "bill" →
     lr_intent r = Some "payments") ∧
  (¬ (has "balance" ∨ has "account") → ¬ (has "payment" ∨ has "bill") →
     has "agent" ∨ has "human" ∨ has "representative" →
     lr_intent r = Some "connect_agent" ∧ lr_escalate r = Some true) ∧
  (¬ (has "balance" ∨ has "account") → ¬ (has "payment" ∨ has "bill") →
     ¬ (has "agent" ∨ has "human" ∨ has "representative") →
     has "hello" ∨ has "hi" → lr_intent r = Some "greeting") ∧
  (¬ (has "balance" ∨ has "account") → ¬ (has "payment" ∨ has "bill") →
     ¬ (has "agent" ∨ has "human" ∨ has "representative") →
     ¬ (has "hello" ∨ has "hi") →
     lr_intent r = Some "unknown" ∧
     lr_reply r = Some "Sorry, I didn't understand that. Could you repeat?").
Proof.
  intros has r. subst has r. unfold llm_client._rule_based_response.
  repeat split; rule_cases; simpl; intros; tauto.
Qed.

Lemma C4_keyword_rule_table_witness :
  lr_intent (llm_client._rule_based_response PyStr.ascii_lower "Please pay my BILL")
    = Some "payments".
Proof.
  apply (C4_keyword_rule_table PyStr.ascii_lower "Please pay my BILL").
  - intros [H|H]; apply str_in_spec in H; discriminate.
  - right. apply str_in_spec. reflexivity.
Defined.

(** The rules written out in [process_call] for a run with no responder
    client are a shorter table: "balance" gives [account_balance];
    otherwise "agent", "human" or "representative" gives [connect_agent]
    with escalate set; anything else gives [unknown]. *)
Lemma fallback_rules_table (E : env) (text : string) :
  let has kw := occurs_in kw (str_lower E text) in
  let o := orchestrator.fallback_rules E text in
  (has "balance" → lr_intent o = Some "account_balance") ∧
  (¬ has "balance" → has "agent" ∨ has "human" ∨ has "representative" →
     lr_intent o = Some "connect_agent" ∧ lr_escalate o = Some true) ∧
  (¬ has "balance" → ¬ (has "agent" ∨ has "human" ∨ has "representative") →
     lr_intent o = Some "unknown" ∧
     lr_reply o = Some "I didn't get that. Can you repeat?").
Proof.
  intros has o. subst has o. unfold orchestrator.fallback_rules.
  repeat split; rule_cases; simpl; intros; tauto.
Qed.

(** ** Reasoning about computations *)

Section WpRules.
Context {A B : Type}.

Lemma wp_mono (m : M A) w (Q Q' : A → world → Prop) (X X' : exn → world → Prop) :
  wp m w Q X → (∀ a w', Q a w' → Q' a w') → (∀ e w', X e w' → X' e w') →
  wp m w Q' X'.
Proof. unfold wp. destruct (m w) as [[a|e] w']; auto. Qed.

Lemma wp_ret (a : A) w Q X : Q a w → wp (mret a) w Q X.
Proof. done. Qed.

Lemma wp_raise (e : exn) w (Q : A → world → Prop) X : X e w → wp (raise e) w Q X.
Proof. done. Qed.

Lemma wp_bind (m : M A) (k : A → M B) w Q X :
  wp m w (λ a w', wp (k a) w' Q X) X → wp (m ≫= k) w Q X.
Proof.
  unfold wp, mbind, M_bind, bind. destruct (m w) as [[a|e] w']; auto.
Qed.

Lemma wp_try (body : M A) (handler : exn → M A) w Q X :
  wp body w Q (λ e w', wp (handler e) w' Q X) → wp (try_except body handler) w Q X.
Proof.
  unfold wp, try_except. destruct (body w) as [[a|e] w']; auto.
Qed.

Lemma wp_gets (f : world → A) w Q X : Q (f w) w → wp (gets f) w Q X.
Proof. done. Qed.

Lemma wp_lift (o : outcome A) w Q X :
  match o with Ret a => Q a w | Raise e => X e w end → wp (lift o) w Q X.
Proof. unfold wp, lift. by destruct o. Qed.

Lemma returns_elim (m : M A) w Q :
  returns m w Q → ∃ a w', m w = (Ret a, w') ∧ Q a w'.
Proof.
  unfold returns, wp. destruct (m w) as [[a|e] w']; [eauto | done].
Qed.

Lemma returns_intro (m : M A) w (Q : A → world → Prop) a w' :
  m w = (Ret a, w') → Q a w' → returns m w Q.
Proof. unfold returns, wp. by intros ->. Qed.

End WpRules.

Lemma wp_modify (f : world → world) w Q X : Q tt (f w) → wp (modify f) w Q X.
Proof. done. Qed.

Lemma set_faults_id w : set_faults (faults w) w = w.
Proof. by destruct w. Qed.

Lemma wp_io_call w (Q : unit → world → Prop) (X : exn → world → Prop) :
  (faults w = [] → Q tt w) →
  (∀ fs, faults w = false :: fs → Q tt (set_faults fs w)) →
  (∀ fs, faults w = true :: fs → X (Exception "I/O error") (set_faults fs w)) →
  wp io_call w Q X.
Proof.
  intros H0 H1 H2. unfold wp, io_call.
  destruct (faults w) as [|[] fs] eqn:Hf; auto.
Qed.

Lemma wp_utcnow (E : env) w Q X :
  Q (now E (clock w)) (set_clock (S (clock w)) w) → wp (utcnow E) w Q X.
Proof. done. Qed.

(** ** Session store *)

Ltac unfold_m :=
  unfold mbind, M_bind, bind, mret, M_ret, ret, try_except, gets, modify, lift, raise,
         io_call in *.

Lemma dict_update_patch (s patch : session) k v :
  patch !! k = Some v → dict_update s patch !! k = Some v.
Proof. intros H. unfold dict_update. by apply lookup_union_Some_l. Qed.

Lemma dict_update_frame (s patch : session) k :
  patch !! k = None → dict_update s patch !! k = s !! k.
Proof. intros H. unfold dict_update. by apply lookup_union_r. Qed.


Lemma session_key_inj a b :
  session_store._session_key a = session_store._session_key b → a = b.
Proof. unfold session_store._session_key. intros H. by apply String.app_inj in H. Qed.

(** [update_session] under any pattern of Redis failures: it returns the
    merge of the patch into some base session, and that merge is what
    Redis or the in-memory dict now holds for the call. *)
Ltac finish_update :=
  do 3 eexists; (split; [reflexivity|]); simpl; rewrite ?lookup_insert_eq;
  split; [reflexivity|]; split; [by auto|];
  split; [try (intros [?|?]; discriminate) | by repeat split].

Lemma update_session_any (E : env) call_id patch w :
  ∃ base merged w',
    session_store.update_session E call_id patch w = (Ret merged, w') ∧
    merged = dict_update base patch ∧
    (redis_sessions w' !! session_store._session_key call_id = Some merged ∨
     INMEM_SESSIONS w' !! call_id = Some merged) ∧
    (redis_client E = false ∨ faults w = [] →
       base = default ∅ (stored_session E w call_id) ∧
       stored_session E w' call_id = Some merged ∧
       (∀ c, c ≠ call_id → stored_session E w' c = stored_session E w c)) ∧
    (faults w = [] → faults w' = []) ∧
    clock w' = clock w ∧ db_transcripts w' = db_transcripts w ∧
    INMEM_TRANSCRIPTS w' = INMEM_TRANSCRIPTS w ∧ redis_lists w' = redis_lists w ∧
    scheduled w' = scheduled w.
Proof.
  unfold session_store.update_session, session_store.redis_get, session_store.redis_set,
    session_store.inmem_get, session_store.inmem_put, stored_session.
  destruct (redis_client E) eqn:Hr; unfold_m; simpl.
  - destruct (faults w) as [|[] fs] eqn:Hf; simpl.
    + rewrite Hf. simpl. finish_update.
      intros _. repeat split.
      intros c Hc. rewrite lookup_insert_ne; [done|].
      intros Hk. by apply session_key_inj in Hk.
    + destruct (INMEM_SESSIONS w !! call_id) as [s|] eqn:Hs; simpl;
        destruct fs as [|[] fs']; simpl; finish_update.
    + destruct fs as [|[] fs']; simpl; finish_update.
  - destruct (INMEM_SESSIONS w !! call_id) as [s|] eqn:Hs; simpl; finish_update.
    + intros _. repeat split.
      intros c Hc. by rewrite !lookup_insert_ne.
    + intros _. repeat split.
      intros c Hc. by rewrite lookup_insert_ne.
Qed.

(** ** State relations kept by the store operations *)

#[local] Instance quiet_refl : Reflexive quiet.
Proof. intros w. by unfold quiet. Qed.
#[local] Instance quiet_trans : Transitive quiet.
Proof. unfold quiet. intros a b c; auto. Qed.
#[local] Instance same_logs_refl : Reflexive same_logs.
Proof. intros w. by unfold same_logs, quiet. Qed.
#[local] Instance same_logs_trans : Transitive same_logs.
Proof.
  unfold same_logs, quiet. intros a b c (?&?&?&?&?&?) (?&?&?&?&?&?).
  repeat split; try congruence; auto.
Qed.

Section Keeps.
Context (R : world → world → Prop) `{!Reflexive R} `{!Transitive R}.

Lemma keeps_ret {A} (a : A) : keeps R (mret a).
Proof. intros w. by apply wp_ret. Qed.

Lemma keeps_raise {A} (e : exn) : keeps R (raise (A:=A) e).
Proof. intros w. by apply wp_raise. Qed.

Lemma keeps_gets {A} (f : world → A) : keeps R (gets f).
Proof. intros w. by apply wp_gets. Qed.

Lemma keeps_lift {A} (o : outcome A) : keeps R (lift o).
Proof. intros w. apply wp_lift. by destruct o. Qed.

Lemma keeps_bind {A B} (m : M A) (k : A → M B) :
  keeps R m → (∀ a, keeps R (k a)) → keeps R (m ≫= k).
Proof.
  intros Hm Hk w. apply wp_bind.
  eapply wp_mono; [apply Hm | |]; simpl; [|done].
  intros a w' Hw. eapply wp_mono; [apply Hk | |]; simpl; intros; by etrans.
Qed.

Lemma keeps_try {A} (body : M A) (handler : exn → M A) :
  keeps R body → (∀ e, keeps R (handler e)) → keeps R (try_except body handler).
Proof.
  intros Hb Hh w. apply wp_try.
  eapply wp_mono; [apply Hb | |]; simpl; [done|].
  intros e w' Hw. eapply wp_mono; [apply Hh | |]; simpl; intros; by etrans.
Qed.

Lemma keeps_modify (f : world → world) : (∀ w, R w (f w)) → keeps R (modify f).
Proof. intros H w. by apply wp_modify. Qed.

End Keeps.

Lemma keeps_io_same_logs : keeps same_logs io_call.
Proof.
  intros w. apply wp_io_call.
  - done.
  - intros fs Hf. repeat split; simpl; auto. intros H. congruence.
  - intros fs Hf. repeat split; simpl; auto. intros H. congruence.
Qed.

Lemma total_ret {A} (a : A) : total (mret a).
Proof. by intros w. Qed.

Lemma total_gets {A} (f : world → A) : total (gets f).
Proof. by intros w. Qed.

Lemma total_modify (f : world → world) : total (modify f).
Proof. by intros w. Qed.

Lemma total_bind {A B} (m : M A) (k : A → M B) :
  total m → (∀ a, total (k a)) → total (m ≫= k).
Proof.
  intros Hm Hk w. apply wp_bind.
  eapply wp_mono; [apply Hm | |]; simpl; [|done].
  intros a w' _. apply Hk.
Qed.

Lemma total_try {A} (body : M A) (handler : exn → M A) :
  (∀ e, total (handler e)) → total (try_except body handler).
Proof.
  intros Hh w. apply wp_try. unfold wp.
  destruct (body w) as [[a|e] w']; [done|]. apply Hh.
Qed.

(** [returns] from [total] and [keeps]. *)
Lemma returns_total_keeps {A} R (m : M A) w :
  total m → keeps R m → returns m w (λ _ w', R w w').
Proof.
  intros Ht Hk. specialize (Ht w). specialize (Hk w).
  unfold returns, wp in *. by destruct (m w) as [[a|e] w'].
Qed.

Ltac keeps_step :=
  lazymatch goal with
  | |- keeps _ (mret _) => apply keeps_ret; apply _
  | |- keeps _ (raise _) => apply keeps_raise; apply _
  | |- keeps _ (gets _) => apply keeps_gets; apply _
  | |- keeps _ (lift _) => apply keeps_lift; apply _
  | |- keeps _ io_call => apply keeps_io_same_logs
  | |- keeps _ (_ ≫= _) => apply keeps_bind; [apply _ .. | | intros ?]
  | |- keeps _ (try_except _ _) => apply keeps_try; [apply _ .. | | intros ?]
  | |- keeps _ (modify _) => apply keeps_modify; intros ?
  | |- keeps _ (if ?b then _ else _) => destruct b
  | |- keeps _ (match ?x with _ => _ end) => destruct x
  end.

Ltac total_step :=
  lazymatch goal with
  | |- total (mret _) => apply total_ret
  | |- total (gets _) => apply total_gets
  | |- total (modify _) => apply total_modify
  | |- total (try_except _ _) => apply total_try; intros ?
  | |- total (_ ≫= _) => apply total_bind; [| intros ?]
  | |- total (if ?b then _ else _) => destruct b
  | |- total (match ?x with _ => _ end) => destruct x
  end.

Lemma same_logs_sessions w f g h :
  same_logs w (set_redis_sessions f w) ∧ same_logs w (set_INMEM_SESSIONS g w) ∧
  same_logs w (set_webhooks_INMEM_SESSIONS h w).
Proof. by unfold same_logs, quiet. Qed.

Section SessionStoreFacts.
Context (E : env).

Lemma inmem_put_keeps c s : keeps same_logs (session_store.inmem_put c s).
Proof. unfold session_store.inmem_put. keeps_step. apply same_logs_sessions; exact ∅. Qed.

Lemma redis_set_keeps k s : keeps same_logs (session_store.redis_set k s).
Proof.
  unfold session_store.redis_set. repeat keeps_step.
  apply same_logs_sessions; exact ∅.
Qed.

Lemma redis_get_keeps k : keeps same_logs (session_store.redis_get k).
Proof. unfold session_store.redis_get. repeat keeps_step. Qed.

Lemma set_session_keeps c s : keeps same_logs (session_store.set_session E c s).
Proof.
  unfold session_store.set_session.
  repeat keeps_step; auto using inmem_put_keeps, redis_set_keeps.
Qed.

Lemma set_session_total c s : total (session_store.set_session E c s).
Proof.
  unfold session_store.set_session, session_store.inmem_put.
  repeat total_step.
Qed.

Lemma get_session_ref_keeps c : keeps same_logs (session_store.get_session_ref E c).
Proof.
  unfold session_store.get_session_ref, session_store.inmem_get.
  repeat keeps_step; auto using redis_get_keeps.
Qed.

End SessionStoreFacts.

Section TranscriptWrites.
Context (E : env).

Lemma append_transcript_first_part c e w :
  returns
    (if redis_client E then
       try_except (session_store.redis_rpush (session_store._transcripts_key c) e)
                  (λ _, session_store.inmem_append c e)
     else session_store.inmem_append c e) w
    (λ _ w', clock w' = clock w ∧ db_transcripts w' = db_transcripts w ∧
             scheduled w' = scheduled w ∧ quiet w w' ∧
             grew (mem_log w c) (mem_log w' c) (entry_item e) ∧
             grew (redis_log w c) (redis_log w' c) (entry_item e) ∧
             (mem_log w' c = (mem_log w c ++ [entry_item e])%list ∨
              redis_log w' c = (redis_log w c ++ [entry_item e])%list)).
Proof.
  unfold returns, wp, session_store.redis_rpush, session_store.inmem_append,
    quiet, grew, mem_log, redis_log.
  destruct (redis_client E); unfold_m; simpl.
  - destruct (faults w) as [|[] fs] eqn:Hf; simpl;
      rewrite ?lookup_insert_eq; simpl; rewrite ?fmap_app; simpl;
      repeat split; auto; done.
  - rewrite ?lookup_insert_eq; simpl; rewrite ?fmap_app; simpl.
    repeat split; auto.
Qed.

Lemma appended_transcripts_keeps s e :
  keeps same_logs (session_store.appended_transcripts s e).
Proof.
  unfold session_store.appended_transcripts.
  repeat keeps_step.
Qed.

Lemma append_transcript_spec c e w :
  returns (session_store.append_transcript E c e) w
    (λ _ w', clock w' = clock w ∧ db_transcripts w' = db_transcripts w ∧
             scheduled w' = scheduled w ∧ quiet w w' ∧
             grew (mem_log w c) (mem_log w' c) (entry_item e) ∧
             grew (redis_log w c) (redis_log w' c) (entry_item e) ∧
             (mem_log w' c = (mem_log w c ++ [entry_item e])%list ∨
              redis_log w' c = (redis_log w c ++ [entry_item e])%list)).
Proof.
  unfold session_store.append_transcript. apply wp_bind.
  eapply wp_mono; [apply append_transcript_first_part | | done]. simpl.
  intros _ w1 (Hc & Hd & Hs & Hq & Hm & Hr & Hor).
  eapply wp_mono;
    [apply (returns_total_keeps same_logs) | | done].
  - apply total_try. intros ?. apply total_ret.
  - apply keeps_try; [apply _ .. | | intros ?; apply keeps_ret; apply _].
    apply keeps_bind; [apply _ .. | apply get_session_ref_keeps |].
    intros [[s|] aliased].
    + apply keeps_bind; [apply _ .. | apply appended_transcripts_keeps |]. intros ts.
      apply keeps_bind; [apply _ .. | | intros ?; apply set_session_keeps].
      destruct aliased; [apply inmem_put_keeps | apply keeps_ret; apply _].
    + apply set_session_keeps.
  - simpl. intros _ w' (Hc' & Hd' & Hi' & Hr' & Hs' & Hq').
    unfold mem_log, redis_log in *. rewrite Hi', Hr'.
    repeat split; try congruence; auto. by etrans.
Qed.

End TranscriptWrites.

Section TranscriptStoreFacts.
Context (E : env).

Lemma save_transcript_touch_spec e w :
  returns (transcripts_store.save_transcript_touch E e) w
    (λ e' w', clock_only w w' ∧
              e_call_id e' = e_call_id e ∧ e_text e' = e_text e ∧
              e_source e' = e_source e ∧
              (e_timestamp e' = e_timestamp e ∧ PyStr.nonempty (e_timestamp e) = true ∨
               e_timestamp e' = now E (clock w) ∧ (clock w < clock w')%nat)).
Proof.
  unfold returns, wp, transcripts_store.save_transcript_touch, utcnow, clock_only.
  unfold_m.
  destruct (PyStr.nonempty (e_timestamp e)) eqn:Hts; simpl;
    (destruct (e_created_at e) as [ca|]; [destruct (PyStr.nonempty ca)|]); simpl;
    repeat split; auto; lia.
Qed.

Lemma save_transcript_db_spec e w :
  wp (transcripts_store.save_transcript_db e) w
    (λ _ w', db_log w' = (db_log w ++ [entry_item e])%list ∧
             clock w' = clock w ∧ INMEM_TRANSCRIPTS w' = INMEM_TRANSCRIPTS w ∧
             redis_lists w' = redis_lists w ∧ scheduled w' = scheduled w ∧ quiet w w')
    (λ _ w', grew (db_log w) (db_log w') (entry_item e) ∧
             clock w' = clock w ∧ INMEM_TRANSCRIPTS w' = INMEM_TRANSCRIPTS w ∧
             redis_lists w' = redis_lists w ∧ scheduled w' = scheduled w ∧ quiet w w').
Proof.
  unfold wp, transcripts_store.save_transcript_db, quiet, grew, db_log. unfold_m.
  destruct (faults w) as [|[] fs] eqn:Hf; simpl; rewrite ?Hf; simpl.
  - rewrite fmap_app. by repeat split.
  - by repeat split; auto.
  - destruct fs as [|[] fs']; simpl; rewrite fmap_app; repeat split; auto; done.
Qed.

Lemma _save_transcript_entry_spec c text source w :
  returns (orchestrator._save_transcript_entry E c text source) w
    (λ _ w', ∃ i, (clock w ≤ i < clock w')%nat ∧
                  appended c (LogItem c (now E i) text source) w w' ∧
                  quiet w w' ∧ scheduled w' = scheduled w).
Proof.
  unfold orchestrator._save_transcript_entry.
  apply wp_bind, wp_utcnow.
  set (w1 := set_clock (S (clock w)) w).
  set (e := Entry c (now E (clock w)) text source None).
  assert (Hfall : ∀ e' w2 i,
    entry_item e' = LogItem c (now E i) text source →
    (clock w ≤ i < clock w2)%nat → quiet w w2 → scheduled w2 = scheduled w →
    grew (db_log w) (db_log w2) (entry_item e') →
    mem_log w2 c = mem_log w c → redis_log w2 c = redis_log w c →
    wp (try_except (session_store.append_transcript E c e') (λ _, mret tt)) w2
       (λ _ w', ∃ i, (clock w ≤ i < clock w')%nat ∧
                     appended c (LogItem c (now E i) text source) w w' ∧
                     quiet w w' ∧ scheduled w' = scheduled w)
       (λ _ _, False)).
  { intros e' w2 i He' Hi Hq Hs Hdb Hm Hr. apply wp_try.
    eapply wp_mono; [apply append_transcript_spec | | done]. simpl.
    intros _ w' (Hc' & Hd' & Hs' & Hq' & Hm' & Hr' & Hor).
    exists i. rewrite Hc'. split; [done|]. rewrite <- He'.
    split; [| split; [by etrans | congruence]].
    unfold appended. unfold db_log in *. rewrite Hd', <- Hm, <- Hr.
    repeat split; auto. }
  destruct (has_transcripts_store E).
  - apply wp_bind.
    eapply wp_mono; [apply save_transcript_touch_spec | | done]. simpl.
    intros e' w2 ((Hcl & Hf & Hd & Hi & Hr & Hs & _) & Hc' & Ht' & Hs' & Hts).
    subst w1 e. simpl in *.
    assert (∃ i, entry_item e' = LogItem c (now E i) text source ∧
                 (clock w ≤ i < clock w2)%nat) as (i & He' & Hi').
    { unfold entry_item. rewrite Hc', Ht', Hs'. simpl in *.
      destruct Hts as [[-> _]|[-> Hlt]]; [exists (clock w) | exists (S (clock w))];
        split; auto; lia. }
    apply wp_try.
    apply wp_bind.
    eapply wp_mono; [apply save_transcript_db_spec | |]; simpl.
    + intros _ w3 (Hdb & Hc3 & Hi3 & Hr3 & Hs3 & Hq3). apply wp_ret.
      exists i. rewrite Hc3, <- He'. split; [done|].
      split; [| split].
      * unfold appended, grew, mem_log, redis_log, db_log in *.
        rewrite Hi3, Hr3, Hi, Hr, Hdb, Hd. simpl. auto 10.
      * unfold quiet in *. rewrite Hf in Hq3. simpl in Hq3. auto.
      * rewrite Hs3, Hs. done.
    + intros _ w3 (Hdb & Hc3 & Hi3 & Hr3 & Hs3 & Hq3).
      apply (Hfall e' w3 i); auto.
      * lia.
      * unfold quiet in *. rewrite Hf in Hq3. simpl in Hq3. auto.
      * by rewrite Hs3, Hs.
      * unfold db_log in *. by rewrite Hd in Hdb.
      * unfold mem_log. by rewrite Hi3, Hi.
      * unfold redis_log. by rewrite Hr3, Hr.
  - apply (Hfall e w1 (clock w)); subst w1; simpl;
      first [done | lia | by unfold quiet | by left].
Qed.

End TranscriptStoreFacts.

(** ** Orchestrator stages *)

Section OrchestratorFacts.
Context (E : env).

Lemma transcribe_eq media_url w :
  ∃ t, orchestrator.transcribe E media_url w = (Ret t, w) ∧
       (asr E = None → t = "stubbed transcript (no ASR client available)") ∧
       (∀ f e, asr E = Some f → f media_url = Raise e →
               t = "stubbed transcript: could not run ASR") ∧
       (∀ f t', asr E = Some f → f media_url = Ret t' → t = t').
Proof.
  unfold orchestrator.transcribe. destruct (asr E) as [f|]; unfold_m.
  - destruct (f media_url) as [t'|e] eqn:Hf; eexists; (split; [reflexivity|]);
      repeat split; try done; intros ? ? [= <-]; congruence.
  - eexists; split; [reflexivity|]. repeat split; done.
Qed.

Lemma respond_eq asr_text c w :
  ∃ r, orchestrator.respond E asr_text c w = (Ret r, w) ∧
       (llm E = None → r = orchestrator.fallback_rules E asr_text) ∧
       (∀ f e, llm E = Some f → f asr_text c = Raise e →
               r = LlmResult (Some "unknown")
                     (Some "Sorry, I couldn't process that right now.") None) ∧
       (∀ f r', llm E = Some f → f asr_text c = Ret r' → r = r').
Proof.
  unfold orchestrator.respond. destruct (llm E) as [f|]; unfold_m.
  - destruct (f asr_text c) as [r'|e] eqn:Hf; eexists; (split; [reflexivity|]);
      repeat split; try done; intros ? ? [= <-]; congruence.
  - eexists; split; [reflexivity|]. repeat split; done.
Qed.

Lemma _maybe_get_flow_for_call_eq w :
  orchestrator._maybe_get_flow_for_call E w = (Ret (selected_flow E), w).
Proof.
  unfold orchestrator._maybe_get_flow_for_call, selected_flow. unfold_m.
  destruct (flows_store_list_flows E); [done|].
  by destruct (api_FLOW_STORE E).
Qed.

Lemma flow_override_eq intent reply_text escalate w :
  orchestrator.flow_override E intent reply_text escalate w =
    (Ret (if has_flow_engine E then
            match selected_flow E with
            | Some f => orchestrator.apply_flow_result
                          (flow_engine.run_flow f intent) reply_text escalate
            | None => (reply_text, escalate)
            end
          else (reply_text, escalate)), w).
Proof.
  unfold orchestrator.flow_override.
  destruct (has_flow_engine E); [|done].
  unfold try_except, mbind, M_bind, bind. rewrite _maybe_get_flow_for_call_eq.
  by destruct (selected_flow E).
Qed.

Lemma synthesize_eq reply_text c w :
  ∃ media_out, orchestrator.synthesize E reply_text c w = (Ret media_out, w).
Proof.
  unfold orchestrator.synthesize. destruct (tts E) as [f|]; unfold_m; [|eauto].
  destruct (f reply_text c) as [[p|]|e]; [destruct (PyStr.nonempty p)| |]; eauto.
Qed.

Lemma escalation_eq escalate c w :
  ∃ agent, orchestrator.escalation E escalate c w = (Ret agent, w) ∧
    (agent = None ↔ escalate = false) ∧
    (escalate = true →
       (∀ f p, media_bridge E = Some f → f c = Ret p → agent = Some p) ∧
       (media_bridge E = None ∨ (∃ f e, media_bridge E = Some f ∧ f c = Raise e) →
          agent = Some orchestrator.no_bridge_payload)).
Proof.
  unfold orchestrator.escalation. destruct escalate; unfold_m.
  - destruct (media_bridge E) as [f|] eqn:Hb.
    + destruct (f c) as [p|e] eqn:Hf; eexists; (split; [reflexivity|]);
        (split; [done|]); intros _; split.
      * intros ? ? [= <-]. congruence.
      * intros [?|(? & ? & [= <-] & ?)]; congruence.
      * intros ? ? [= <-]. congruence.
      * done.
    + eexists; split; [reflexivity|]. split; [done|]. intros _. split; [done|done].
  - eexists; split; [reflexivity|]. split; done.
Qed.

Lemma _update_session_spec c patch w :
  ∃ base w',
    orchestrator._update_session E c patch w = (Ret tt, w') ∧
    (redis_sessions w' !! session_store._session_key c = Some (dict_update base patch) ∨
     INMEM_SESSIONS w' !! c = Some (dict_update base patch)) ∧
    (redis_client E = false ∨ faults w = [] →
       base = default ∅ (stored_session E w c) ∧
       stored_session E w' c = Some (dict_update base patch) ∧
       (∀ c', c' ≠ c → stored_session E w' c' = stored_session E w c')) ∧
    quiet w w' ∧
    clock w' = clock w ∧ db_transcripts w' = db_transcripts w ∧
    INMEM_TRANSCRIPTS w' = INMEM_TRANSCRIPTS w ∧ redis_lists w' = redis_lists w ∧
    scheduled w' = scheduled w.
Proof.
  destruct (update_session_any E c patch w)
    as (base & merged & w' & Heq & -> & Hst & Hok & Hq & Hrest).
  exists base, w'. unfold orchestrator._update_session. unfold_m.
  rewrite Heq. unfold quiet. tauto.
Qed.

End OrchestratorFacts.

Section PipelineFacts.
Context (E : env).

(** Steps 1 and 2: both return, and each is followed by one write to
    the transcript log, stamped with a later clock reading than the
    write before. *)
Lemma transcribe_and_respond_spec payload w :
  let c := p_call_id payload in
  ∃ asr_text r w1 w2 i1 i2,
    orchestrator.transcribe_and_respond E payload w = (Ret (asr_text, r), w2) ∧
    orchestrator.transcribe E (p_media_url payload) w = (Ret asr_text, w) ∧
    orchestrator.respond E asr_text c w1 = (Ret r, w1) ∧
    (clock w ≤ i1 < i2)%nat ∧ (i2 < clock w2)%nat ∧
    appended c (LogItem c (now E i1) asr_text "asr") w w1 ∧
    appended c (LogItem c (now E i2) (default "" (lr_reply r)) "llm") w1 w2 ∧
    quiet w w2 ∧ scheduled w2 = scheduled w.
Proof.
  intros c. unfold orchestrator.transcribe_and_respond. fold c.
  destruct (transcribe_eq E (p_media_url payload) w) as (t & Ht & _).
  destruct (returns_elim _ _ _ (_save_transcript_entry_spec E c t "asr" w))
    as ([] & w1 & Hs1 & i1 & Hi1 & Ha1 & Hq1 & Hsch1).
  destruct (respond_eq E t c w1) as (r & Hr & _).
  destruct (returns_elim _ _ _
              (_save_transcript_entry_spec E c (default "" (lr_reply r)) "llm" w1))
    as ([] & w2 & Hs2 & i2 & Hi2 & Ha2 & Hq2 & Hsch2).
  exists t, r, w1, w2, i1, i2.
  unfold mbind, M_bind, bind, mret, M_ret, ret.
  rewrite Ht, Hs1, Hr, Hs2.
  split_and!; auto; try lia; try congruence.
  by etrans.
Qed.

(** Steps 3 to 6: they return the summary, and the final patch, merged
    into some base session, is what the session store holds at the end. *)
Lemma override_and_finish_spec payload r w :
  let c := p_call_id payload in
  ∃ sm w' base,
    orchestrator.override_and_finish E payload r w = (Ret sm, w') ∧
    s_call_id sm = c ∧ s_intent sm = lr_intent r ∧
    orchestrator.flow_override E (lr_intent r) (Some (default "" (lr_reply r)))
      (bool_of (lr_escalate r)) w = (Ret (s_reply sm, s_escalated sm), w) ∧
    orchestrator.escalation E (s_escalated sm) c w = (Ret (s_agent sm), w) ∧
    let patch := orchestrator.final_patch (s_intent sm) (s_reply sm) (s_media_out sm)
                   (s_agent sm) (s_escalated sm) (now E (clock w)) in
    (redis_sessions w' !! session_store._session_key c = Some (dict_update base patch) ∨
     INMEM_SESSIONS w' !! c = Some (dict_update base patch)) ∧
    (redis_client E = false ∨ faults w = [] →
       base = default ∅ (stored_session E w c) ∧
       stored_session E w' c = Some (dict_update base patch)) ∧
    quiet w w' ∧ db_transcripts w' = db_transcripts w ∧
    INMEM_TRANSCRIPTS w' = INMEM_TRANSCRIPTS w ∧ redis_lists w' = redis_lists w.
Proof.
  intros c. unfold orchestrator.override_and_finish. fold c.
  unfold mbind, M_bind, bind, mret, M_ret, ret.
  rewrite flow_override_eq.
  set (fr := if has_flow_engine E then _ else _). destruct fr as [reply_text escalate].
  destruct (synthesize_eq E reply_text c w) as (media_out & Hsyn). rewrite Hsyn.
  destruct (escalation_eq E escalate c w) as (agent & Hesc & _). rewrite Hesc.
  unfold utcnow.
  set (w0 := set_clock (S (clock w)) w).
  destruct (_update_session_spec E c
              (orchestrator.final_patch (lr_intent r) reply_text media_out agent escalate
                 (now E (clock w))) w0)
    as (base & w' & Hup & Hst & Hok & Hq & Hc & Hd & Hi & Hr & Hs).
  rewrite Hup. eexists _, w', base. split; [reflexivity|]. simpl.
  split_and!; auto.
  intros H. apply Hok in H as (? & ? & ?). done.
Qed.

End PipelineFacts.

(** ** Flow engine *)

Lemma nonempty_true (s : string) : PyStr.nonempty s = true ↔ s ≠ "".
Proof. by destruct s. Qed.

Lemma node_matches_spec intent n :
  flow_engine.node_matches intent n = true ↔ intent_key_is intent n.
Proof.
  unfold flow_engine.node_matches, intent_key_is.
  destruct intent as [i|], (n_intent n) as [k|]; try (split; [done | by intros (? & ? & ? & ?)]).
  rewrite !andb_true_iff, bool_decide_eq_true, !nonempty_true. split.
  - intros [[Hi Hk] ->]. by exists i.
  - intros (k' & [= ->] & [= ->] & ?). done.
Qed.

Lemma is_start_spec n : flow_engine.is_start n = true ↔ start_prompt_node n.
Proof.
  unfold flow_engine.is_start, start_prompt_node.
  by rewrite andb_true_iff, orb_true_iff, !bool_decide_eq_true.
Qed.

Lemma find_first {A} (p : A → bool) (l pre post : list A) (x : A) :
  l = (pre ++ x :: post)%list → p x = true → (∀ m, m ∈ pre → p m ≠ true) →
  List.find p l = Some x.
Proof.
  intros -> Hx. induction pre as [|y pre IH]; intros Hpre; simpl.
  - by rewrite Hx.
  - destruct (p y) eqn:Hy.
    + exfalso. apply (Hpre y); [left | done].
    + apply IH. intros m Hm. apply Hpre. by right.
Qed.

Lemma find_none {A} (p : A → bool) (l : list A) :
  (∀ m, m ∈ l → p m ≠ true) → List.find p l = None.
Proof.
  induction l as [|y l IH]; intros Hl; simpl; [done|].
  destruct (p y) eqn:Hy.
  - exfalso. apply (Hl y); [left | done].
  - apply IH. intros m Hm. apply Hl. by right.
Qed.

(** C3.  [run_flow] returns the reply and the escalate flag of the first
    node, in stored order, whose intent-match key equals the given intent;
    when no node matches, the prompt text of the first node with
    identifier [start] and type [ask] or [say], with escalate false; when
    there is none either, an empty reply ([None]) with escalate false. *)
Theorem C3_run_flow_first_match (flow : Flow) (intent : option string) :
  (∀ pre n post,
     nodes flow = (pre ++ n :: post)%list →
     intent_key_is intent n → (∀ m, m ∈ pre → ¬ intent_key_is intent m) →
     flow_engine.run_flow flow intent =
       FlowResult (Some (n_reply n)) (Some (default false (n_escalate n)))) ∧
  ((∀ m, m ∈ nodes flow → ¬ intent_key_is intent m) →
     (∀ pre n post,
        nodes flow = (pre ++ n :: post)%list →
        start_prompt_node n → (∀ m, m ∈ pre → ¬ start_prompt_node m) →
        flow_engine.run_flow flow intent = FlowResult (Some (n_text n)) (Some false)) ∧
     ((∀ m, m ∈ nodes flow → ¬ start_prompt_node m) →
        flow_engine.run_flow flow intent = FlowResult (Some None) (Some false))).
Proof.
  unfold flow_engine.run_flow. split.
  - intros pre n post Hl Hn Hpre.
    rewrite (find_first _ _ pre post n); [by destruct (n_escalate n) | done | |].
    + by apply node_matches_spec.
    + intros m Hm. rewrite node_matches_spec. by apply Hpre.
  - intros Hno.
    rewrite find_none; [| intros m Hm; rewrite node_matches_spec; by apply Hno].
    split.
    + intros pre n post Hl Hn Hpre.
      rewrite (find_first _ _ pre post n); [done | done | |].
      * by apply is_start_spec.
      * intros m Hm. rewrite is_start_spec. by apply Hpre.
    + intros Hns.
      rewrite find_none; [done|]. intros m Hm. rewrite is_start_spec. by apply Hns.
Qed.

Lemma C3_run_flow_first_match_witness :
  flow_engine.run_flow demo.faq_flow (Some "account_balance") =
    FlowResult (Some (Some "Your balance is $42")) (Some false).
Proof.
  apply (proj1 (C3_run_flow_first_match demo.faq_flow (Some "account_balance"))
           [Node "start" "ask" (Some "How can I help?") None None (Some false)]
           (Node "account" "action" None (Some "account_balance")
                 (Some "Your balance is $42") (Some false))
           [Node "account2" "action" None (Some "account_balance")
                 (Some "Second answer") (Some true);
            Node "support" "action" None (Some "connect_agent")
                 (Some "Connecting to agent") (Some true)]).
  - reflexivity.
  - exists "account_balance". by split_and!.
  - intros m Hm (k & Hk & _). apply list_elem_of_singleton in Hm as ->. discriminate.
Defined.

(** ** Transcript queries *)

Lemma str_le_refl (a : string) : PyStr.le a a.
Proof.
  unfold PyStr.le, String.leb.
  induction a as [|x a IH]; simpl; [done|].
  unfold Ascii.compare. by rewrite N.compare_refl.
Qed.

Lemma str_le_trans (a b c : string) : PyStr.le a b → PyStr.le b c → PyStr.le a c.
Proof.
  unfold PyStr.le, String.leb. revert b c.
  induction a as [|x a IH]; intros [|y b] [|z c]; simpl; try done.
  unfold Ascii.compare.
  destruct (N.compare_spec (N_of_ascii x) (N_of_ascii y)) as [Hxy|Hxy|Hxy];
    destruct (N.compare_spec (N_of_ascii y) (N_of_ascii z)) as [Hyz|Hyz|Hyz];
    try done;
    destruct (N.compare_spec (N_of_ascii x) (N_of_ascii z)) as [Hxz|Hxz|Hxz];
    try done; try lia.
  apply IH.
Qed.

Lemma str_le_total (a b : string) : PyStr.le a b ∨ PyStr.le b a.
Proof. apply String.leb_total. Qed.

#[local] Instance newer_first_trans : Transitive transcripts_store.newer_first.
Proof. intros a b c Hab Hbc. unfold transcripts_store.newer_first in *. by eapply str_le_trans. Qed.

#[local] Instance newer_first_total : Total transcripts_store.newer_first.
Proof. intros a b. apply str_le_total. Qed.

Lemma given_filter (o : option string) (b : string → bool) (P : string → Prop) :
  (∀ s, b s = true ↔ P s) →
  match transcripts_store.given o with Some s => b s | None => true end = true ↔
  (∀ s, o = Some s → s ≠ "" → P s).
Proof.
  intros Hb. unfold transcripts_store.given.
  destruct o as [x|]; [|by split].
  destruct (PyStr.nonempty x) eqn:Hx.
  - apply nonempty_true in Hx. rewrite Hb. split.
    + by intros HP s [= <-] _.
    + intros H. by apply H.
  - destruct x; [|discriminate]. split; [|done].
    by intros _ s [= <-] Hs.
Qed.

Lemma row_selected_spec call_id from_ts to_ts r :
  transcripts_store.row_selected call_id from_ts to_ts r = true ↔
  in_window call_id from_ts to_ts r.
Proof.
  unfold transcripts_store.row_selected, in_window, PyStr.le.
  rewrite !andb_true_iff.
  rewrite (given_filter call_id _ (λ c, r_call_id r = c))
    by (intros s; apply bool_decide_eq_true).
  rewrite (given_filter from_ts _ (λ f, String.leb f (r_timestamp r) = true)) by done.
  rewrite (given_filter to_ts _ (λ t, String.leb (r_timestamp r) t = true)) by done.
  tauto.
Qed.

Lemma sql_limit_split {A} (limit : Z) (l : list A) :
  ∃ rest,
    l = (transcripts_store.sql_limit limit l ++ rest)%list ∧
    ((0 ≤ limit)%Z → (List.length (transcripts_store.sql_limit limit l) ≤ Z.to_nat limit)%nat) ∧
    (rest ≠ [] →
       (0 ≤ limit)%Z ∧ List.length (transcripts_store.sql_limit limit l) = Z.to_nat limit).
Proof.
  unfold transcripts_store.sql_limit. destruct (Z.ltb_spec limit 0) as [Hneg|Hpos].
  - exists []. rewrite app_nil_r. split_and!; [done | lia | done].
  - exists (drop (Z.to_nat limit) l). rewrite take_drop. split_and!; [done | |].
    + intros _. rewrite length_take. lia.
    + intros Hrest. split; [done|]. rewrite length_take.
      destruct (decide (Z.to_nat limit ≤ List.length l)%nat) as [|Hn]; [lia|].
      rewrite drop_ge in Hrest by lia. done.
Qed.

(** What the store query selects from a table. *)
Lemma select_transcripts_spec call_id from_ts to_ts limit rows :
  let res := transcripts_store.select_transcripts call_id from_ts to_ts limit rows in
  (∀ r, r ∈ res → r ∈ rows ∧ in_window call_id from_ts to_ts r) ∧
  StronglySorted transcripts_store.newer_first res ∧
  ((0 ≤ limit)%Z → (List.length res ≤ Z.to_nat limit)%nat) ∧
  ∃ rest,
    (∀ r, r ∈ rows → in_window call_id from_ts to_ts r → r ∈ res ∨ r ∈ rest) ∧
    (∀ a b, a ∈ res → b ∈ rest → transcripts_store.newer_first a b) ∧
    (rest ≠ [] → (0 ≤ limit)%Z ∧ List.length res = Z.to_nat limit).
Proof.
  intros res. subst res. unfold transcripts_store.select_transcripts.
  set (sel := List.filter _ rows).
  set (sorted := merge_sort transcripts_store.newer_first sel).
  assert (Hsorted : StronglySorted transcripts_store.newer_first sorted)
    by (apply StronglySorted_merge_sort; apply _).
  assert (Hin : ∀ r, r ∈ sorted ↔ r ∈ rows ∧ in_window call_id from_ts to_ts r).
  { intros r. unfold sorted. rewrite merge_sort_Permutation. unfold sel.
    rewrite !list_elem_of_In, List.filter_In, row_selected_spec. done. }
  destruct (sql_limit_split limit sorted) as (rest & Hsplit & Hlen & Hrest).
  set (res := transcripts_store.sql_limit limit sorted) in *.
  rewrite Hsplit in Hin, Hsorted.
  split_and!.
  - intros r Hr. apply Hin. apply elem_of_app. by left.
  - by apply StronglySorted_app_1_l in Hsorted.
  - done.
  - exists rest. split_and!; [| | done].
    + intros r Hr Hw. apply elem_of_app, Hin. done.
    + intros a b Ha Hb. by eapply StronglySorted_app_1_elem_of.
Qed.

(** C8.  A transcript query returns only rows of the table whose
    timestamp lies, in string order, within the inclusive window of the
    bounds given, and whose call identifier is the one given; the rows
    come newest first and are cut to the limit, the rows cut off being
    none newer than those kept.  When the store cannot be queried the
    endpoint answers from its in-memory dict, which holds nothing. *)
Theorem C8_transcript_query_window (E : env)
    (call_id from_ts to_ts : option string) (limit : Z) (w : world) :
  ∃ res w',
    api_transcripts.search_transcripts E call_id from_ts to_ts limit w = (Ret res, w') ∧
    match res with
    | api_transcripts.FromStore rows =>
        transcripts_store.query_transcripts call_id from_ts to_ts limit w = (Ret rows, w') ∧
        (∀ r, r ∈ rows →
           r ∈ db_transcripts w ∧
           (∀ f, from_ts = Some f → f ≠ "" → PyStr.le f (r_timestamp r)) ∧
           (∀ t, to_ts = Some t → t ≠ "" → PyStr.le (r_timestamp r) t) ∧
           (∀ c, call_id = Some c → c ≠ "" → r_call_id r = c)) ∧
        StronglySorted (λ a b, PyStr.le (r_timestamp b) (r_timestamp a)) rows ∧
        ((0 ≤ limit)%Z → (Z.of_nat (List.length rows) ≤ limit)%Z) ∧
        ∃ rest,
          (∀ r, r ∈ db_transcripts w → in_window call_id from_ts to_ts r →
                r ∈ rows ∨ r ∈ rest) ∧
          (∀ a b, a ∈ rows → b ∈ rest → PyStr.le (r_timestamp b) (r_timestamp a)) ∧
          (rest ≠ [] → Z.of_nat (List.length rows) = limit)
    | api_transcripts.FromMemory entries => entries = []
    end.
Proof.
  destruct (select_transcripts_spec call_id from_ts to_ts limit (db_transcripts w))
    as (Hin & Hsorted & Hlen & rest & Hall & Hnewer & Hrest).
  unfold api_transcripts.search_transcripts, transcripts_store.query_transcripts.
  assert (Hmem : api_transcripts.search_in_memory api_transcripts._INMEM_TRANSCRIPTS
                   call_id from_ts to_ts limit = []).
  { unfold api_transcripts.search_in_memory, api_transcripts._INMEM_TRANSCRIPTS.
    destruct (transcripts_store.given call_id); simpl.
    - unfold api_transcripts.slice_last. by destruct (0 <? limit)%Z; rewrite drop_nil.
    - unfold api_transcripts.slice_first.
      change (merge_sort api_transcripts.entry_newer_first []) with (@nil entry).
      by destruct (0 <=? limit)%Z; rewrite take_nil. }
  rewrite Hmem.
  assert (Hgood :
    ∀ r, r ∈ transcripts_store.select_transcripts call_id from_ts to_ts limit
               (db_transcripts w) →
       r ∈ db_transcripts w ∧
       (∀ f, from_ts = Some f → f ≠ "" → PyStr.le f (r_timestamp r)) ∧
       (∀ t, to_ts = Some t → t ≠ "" → PyStr.le (r_timestamp r) t) ∧
       (∀ c, call_id = Some c → c ≠ "" → r_call_id r = c)).
  { intros r Hr. destruct (Hin r Hr) as (? & ? & ? & ?). done. }
  destruct (has_transcripts_store E); unfold_m; simpl.
  - destruct (faults w) as [|[] fs] eqn:Hf; simpl.
    + eexists _, _. split; [reflexivity|]. simpl. rewrite ?Hf.
      split_and!; [done | exact Hgood | done | lia |].
      exists rest. split_and!; [done | done |]. intros H. apply Hrest in H. lia.
    + by eexists _, _.
    + eexists _, _. split; [reflexivity|]. simpl. rewrite ?Hf.
      split_and!; [done | exact Hgood | done | lia |].
      exists rest. split_and!; [done | done |]. intros H. apply Hrest in H. lia.
  - by eexists _, _.
Qed.

Lemma C8_transcript_query_window_witness :
  ∃ r1 r2,
    transcripts_store.query_transcripts (Some "call-1") (Some "2024-01-01T00:00:00")
      (Some "2024-01-01T23:59:59") 50 demo.db_world = (Ret [r1; r2], demo.db_world) ∧
    r_id r1 = 2%nat ∧ r_id r2 = 1%nat ∧
    PyStr.le "2024-01-01T00:00:00" (r_timestamp r1) ∧
    PyStr.le (r_timestamp r1) "2024-01-01T23:59:59" ∧
    r_call_id r1 = "call-1".
Proof.
  destruct (C8_transcript_query_window demo.failing_adapters (Some "call-1")
              (Some "2024-01-01T00:00:00") (Some "2024-01-01T23:59:59") 50 demo.db_world)
    as (res & w' & Hrun & Hres).
  vm_compute in Hrun. injection Hrun as <- <-.
  destruct Hres as (Hq & Hin & _).
  eexists _, _. split; [exact Hq|].
  split; [reflexivity|]. split; [reflexivity|].
  edestruct Hin as (_ & Hfrom & Hto & Hcall); [left|].
  split; [apply (Hfrom _ eq_refl); discriminate|].
  split; [apply (Hto _ eq_refl); discriminate|].
  apply (Hcall _ eq_refl); discriminate.
Defined.

(** ** Final session state *)

Lemma final_patch_lookups intent reply_text media_out agent escalate t :
  let p := orchestrator.final_patch intent reply_text media_out agent escalate t in
  p !! "status" = Some (VStr (if escalate then "escalated" else "completed")) ∧
  p !! "last_intent" = Some (opt_str intent) ∧
  p !! "last_reply" = Some (opt_str reply_text) ∧
  p !! "media_out" = Some (opt_str media_out) ∧
  p !! "agent" = Some (opt_dict agent) ∧
  p !! "last_update" = Some (VStr t).
Proof.
  unfold orchestrator.final_patch. simpl.
  split_and!; [by destruct escalate | done ..].
Qed.

Lemma process_call_unfold (E : env) payload w asr_text r w2 :
  orchestrator.transcribe_and_respond E payload w = (Ret (asr_text, r), w2) →
  orchestrator.process_call E payload w = orchestrator.override_and_finish E payload r w2.
Proof.
  intros H. unfold orchestrator.process_call, mbind, M_bind, bind. by rewrite H.
Qed.

(** The whole run: it returns, and the session the store ends up holding
    for the call carries the fields of the final patch. *)
Lemma process_call_spec (E : env) payload w :
  let c := p_call_id payload in
  ∃ sm w' s,
    orchestrator.process_call E payload w = (Ret sm, w') ∧
    s_call_id sm = c ∧
    (redis_sessions w' !! session_store._session_key c = Some s ∨
     INMEM_SESSIONS w' !! c = Some s) ∧
    (redis_client E = false ∨ faults w = [] → stored_session E w' c = Some s) ∧
    s !! "status" = Some (VStr (if s_escalated sm then "escalated" else "completed")) ∧
    s !! "last_intent" = Some (opt_str (s_intent sm)) ∧
    s !! "last_reply" = Some (opt_str (s_reply sm)) ∧
    s !! "media_out" = Some (opt_str (s_media_out sm)) ∧
    s !! "agent" = Some (opt_dict (s_agent sm)) ∧
    ∃ w2, orchestrator.escalation E (s_escalated sm) c w2 = (Ret (s_agent sm), w2).
Proof.
  intros c.
  destruct (transcribe_and_respond_spec E payload w)
    as (t & r & w1 & w2 & i1 & i2 & Hfirst & _ & _ & _ & _ & _ & _ & Hq & _).
  destruct (override_and_finish_spec E payload r w2)
    as (sm & w' & base & Hsecond & Hc & _ & _ & Hesc & Hst & Hok & _).
  fold c in Hesc, Hst, Hok, Hc.
  pose proof (final_patch_lookups (s_intent sm) (s_reply sm) (s_media_out sm)
                (s_agent sm) (s_escalated sm) (now E (clock w2)))
    as (H1 & H2 & H3 & H4 & H5 & _).
  eexists sm, w', _. rewrite (process_call_unfold E payload w t r w2 Hfirst).
  split_and!; [exact Hsecond | exact Hc | exact Hst | | | | | | |].
  - intros [Hr|Hf]; apply Hok; [by left | right; by apply Hq].
  - by apply dict_update_patch.
  - by apply dict_update_patch.
  - by apply dict_update_patch.
  - by apply dict_update_patch.
  - by apply dict_update_patch.
  - by exists w2.
Qed.

(** C1.  What a run writes as status.  Under every behaviour of the
    adapters and every pattern of failures, the session that the run
    leaves in Redis or in the in-memory dict has status [escalated] when
    the final escalation flag is set and [completed] otherwise: never
    [received], but never [answered] either, which is the status the
    stub run of the webhook module writes at the same step.  The run
    shown is a call without media under the default settings. *)
Theorem C1_status_completed_not_answered :
  (∀ E payload w,
     ∃ sm w' s,
       orchestrator.process_call E payload w = (Ret sm, w') ∧
       (redis_sessions w' !! session_store._session_key (p_call_id payload) = Some s ∨
        INMEM_SESSIONS w' !! p_call_id payload = Some s) ∧
       s !! "status" = Some (VStr (if s_escalated sm then "escalated" else "completed")) ∧
       s !! "status" ≠ Some (VStr "answered") ∧
       s !! "status" ≠ Some (VStr "received")) ∧
  (∀ last_update,
     webhooks_stub.stub_patch last_update !! "status" = Some (VStr "answered")) ∧
  ∃ sm w',
    orchestrator.process_call (shipped.service []) demo.call
      (demo.received (shipped.service [])) = (Ret sm, w') ∧
    s_escalated sm = false ∧
    stored_status (shipped.service []) (demo.received (shipped.service [])) "call-1"
      = Some (VStr "received") ∧
    stored_status (shipped.service []) w' "call-1" = Some (VStr "completed").
Proof.
  split_and!.
  - intros E payload w.
    destruct (process_call_spec E payload w)
      as (sm & w' & s & Hrun & _ & Hheld & _ & Hstatus & _).
    exists sm, w', s. rewrite Hstatus.
    split_and!; [done | done | done | |]; by destruct (s_escalated sm).
  - done.
  - eexists _, _. split; [vm_compute; reflexivity|].
    split_and!; [reflexivity | by vm_compute | by vm_compute].
Qed.

(** ** Resilience *)

Lemma synthesize_fallback (E : env) reply_text c w :
  (tts E = None ∨ ∃ f e, tts E = Some f ∧ f reply_text c = Raise e) →
  orchestrator.synthesize E reply_text c w = (Ret None, w).
Proof.
  unfold orchestrator.synthesize. intros [->|(f & e & -> & Hf)]; [done|].
  unfold_m. by rewrite Hf.
Qed.

(** C5.  [process_call] returns a summary from every state and under every
    behaviour of the adapters and of the stores, and the final patch is
    in the session store at the end.  Each failure is caught where it
    happens: a transcriber that raises gives the fixed transcript, a
    responder that raises gives the [unknown] intent with the fixed
    reply, flow stores that raise leave reply and escalation as they
    were, a synthesizer that raises gives no media reference, a bridge
    that raises gives the substitute payload, and the transcript and
    session writes return whatever the stores do. *)
Theorem C5_process_call_never_raises (E : env) (payload : CallWebhook) (w : world) :
  let c := p_call_id payload in
  (∃ sm w' s,
     orchestrator.process_call E payload w = (Ret sm, w') ∧
     s_call_id sm = c ∧
     (redis_sessions w' !! session_store._session_key c = Some s ∨
      INMEM_SESSIONS w' !! c = Some s) ∧
     s !! "status" = Some (VStr (if s_escalated sm then "escalated" else "completed")) ∧
     s !! "last_intent" = Some (opt_str (s_intent sm)) ∧
     s !! "last_reply" = Some (opt_str (s_reply sm))) ∧
  (∀ f e, asr E = Some f → f (p_media_url payload) = Raise e →
     orchestrator.transcribe E (p_media_url payload) w =
       (Ret "stubbed transcript: could not run ASR", w)) ∧
  (∀ f e text, llm E = Some f → f text c = Raise e →
     orchestrator.respond E text c w =
       (Ret (LlmResult (Some "unknown") (Some "Sorry, I couldn't process that right now.")
               None), w)) ∧
  (∀ e1 e2 intent reply_text escalate,
     flows_store_list_flows E = Raise e1 → api_FLOW_STORE E = Raise e2 →
     orchestrator.flow_override E intent reply_text escalate w =
       (Ret (reply_text, escalate), w)) ∧
  (∀ f e reply_text, tts E = Some f → f reply_text c = Raise e →
     orchestrator.synthesize E reply_text c w = (Ret None, w)) ∧
  (∀ f e, media_bridge E = Some f → f c = Raise e →
     orchestrator.escalation E true c w = (Ret (Some orchestrator.no_bridge_payload), w)) ∧
  (∀ text source, ∃ w', orchestrator._save_transcript_entry E c text source w = (Ret tt, w')) ∧
  (∀ patch, ∃ w', orchestrator._update_session E c patch w = (Ret tt, w')).
Proof.
  intros c. split_and!.
  - destruct (process_call_spec E payload w)
      as (sm & w' & s & Hrun & Hc & Hst & _ & H1 & H2 & H3 & _).
    by exists sm, w', s.
  - intros f e Hf He.
    destruct (transcribe_eq E (p_media_url payload) w) as (t & Ht & _ & Hraise & _).
    by rewrite Ht, (Hraise f e Hf He).
  - intros f e text Hf He.
    destruct (respond_eq E text c w) as (r & Hr & _ & Hraise & _).
    by rewrite Hr, (Hraise f e Hf He).
  - intros e1 e2 intent reply_text escalate H1 H2.
    rewrite flow_override_eq. unfold selected_flow. rewrite H1, H2.
    by destruct (has_flow_engine E).
  - intros f e reply_text Hf He. apply synthesize_fallback. right. by exists f, e.
  - intros f e Hf He.
    destruct (escalation_eq E true c w) as (agent & Ha & _ & Hb).
    destruct (Hb eq_refl) as [_ Hsub]. rewrite Ha, Hsub; [done|].
    right. by exists f, e.
  - intros text source.
    destruct (returns_elim _ _ _ (_save_transcript_entry_spec E c text source w))
      as ([] & w' & H & _).
    by exists w'.
  - intros patch. destruct (_update_session_spec E c patch w) as (base & w' & H & _).
    by exists w'.
Qed.

Lemma C5_process_call_never_raises_witness :
  orchestrator.respond demo.failing_adapters "stubbed transcript: could not run ASR"
    "call-1" demo.flaky_world =
    (Ret (LlmResult (Some "unknown") (Some "Sorry, I couldn't process that right now.") None),
     demo.flaky_world).
Proof.
  pose proof (C5_process_call_never_raises demo.failing_adapters demo.call demo.flaky_world)
    as (_ & _ & H & _).
  eapply H; reflexivity.
Defined.

(** A run in which every adapter raises and the first two Redis calls
    fail still ends with a summary made of the fallback values. *)
Example all_adapters_fail_run :
  ∃ w',
    orchestrator.process_call demo.failing_adapters demo.call demo.flaky_world =
      (Ret (Summary "call-1" (Some "unknown")
              (Some "Sorry, I couldn't process that right now.") None false None), w').
Proof. eexists. vm_compute. reflexivity. Qed.

(** ** Escalation payload *)



(** With the bridge of the repository the payload is the agent URL of
    the call. *)
Example agent_request_run :
  ∃ w',
    orchestrator.process_call demo.agent_request demo.call demo.empty_world =
      (Ret (Summary "call-1" (Some "connect_agent") (Some "Connecting you to an agent.")
              None true (Some (media_bridge.escalate_to_agent "call-1"))), w').
Proof. eexists. vm_compute. reflexivity. Qed.

(** ** Transcript entries of a run *)

Lemma str_le_app_l (p a b : string) : PyStr.le a b → PyStr.le (p +:+ a) (p +:+ b).
Proof.
  unfold PyStr.le, String.leb. intros H.
  induction p as [|x p IH]; [done|].
  rewrite !append_cons. simpl. unfold Ascii.compare. by rewrite N.compare_refl.
Qed.

Lemma zeros_le (i j : nat) : (i ≤ j)%nat → PyStr.le (demo.zeros i) (demo.zeros j).
Proof.
  revert j. induction i as [|i IH]; intros j Hij.
  - by destruct j.
  - destruct j as [|j]; [lia|]. simpl.
    specialize (IH j ltac:(lia)). unfold PyStr.le, String.leb in *. simpl.
    done.
Qed.

Lemma tick_monotone (i j : nat) : (i ≤ j)%nat → PyStr.le (demo.tick i) (demo.tick j).
Proof. intros H. unfold demo.tick. by apply str_le_app_l, zeros_le. Qed.

(** C9 (as amended).  Steps 1 and 2 of a run, which come before the flow
    override, append two entries to the transcript log of the call:
    first one with source [asr] carrying the transcript text, then one
    with source [llm] carrying the reply text.  The timestamp of the
    second is a later reading of the clock than that of the first, so
    the two timestamps are in ascending order whenever the clock does
    not go back between readings. *)
Theorem C9_two_transcript_entries (E : env) (payload : CallWebhook) (w : world) :
  let c := p_call_id payload in
  ∃ asr_text r w1 w2 i1 i2,
    orchestrator.transcribe_and_respond E payload w = (Ret (asr_text, r), w2) ∧
    orchestrator.process_call E payload w = orchestrator.override_and_finish E payload r w2 ∧
    orchestrator.transcribe E (p_media_url payload) w = (Ret asr_text, w) ∧
    orchestrator.respond E asr_text c w1 = (Ret r, w1) ∧
    appended c (LogItem c (now E i1) asr_text "asr") w w1 ∧
    appended c (LogItem c (now E i2) (default "" (lr_reply r)) "llm") w1 w2 ∧
    (i1 < i2)%nat ∧
    (clock_monotone E → PyStr.le (now E i1) (now E i2)).
Proof.
  intros c.
  destruct (transcribe_and_respond_spec E payload w)
    as (t & r & w1 & w2 & i1 & i2 & Hrun & Ht & Hr & Hi & _ & Ha1 & Ha2 & _).
  exists t, r, w1, w2, i1, i2.
  split_and!; try done.
  - by eapply process_call_unfold.
  - lia.
  - intros Hmono. apply Hmono. lia.
Qed.

Lemma C9_two_transcript_entries_witness :
  ∃ w1 w2 t1 t2,
    appended "call-1"
      (LogItem "call-1" t1 "stubbed transcript (no ASR client available)" "asr")
      demo.empty_world w1 ∧
    appended "call-1" (LogItem "call-1" t2 "I didn't get that. Can you repeat?" "llm") w1 w2 ∧
    PyStr.le t1 t2.
Proof.
  destruct (C9_two_transcript_entries demo.no_adapters demo.call demo.empty_world)
    as (t & r & w1 & w2 & i1 & i2 & _ & _ & Ht & Hr & Ha1 & Ha2 & _ & Hle).
  vm_compute in Ht. injection Ht as <-.
  assert (r = orchestrator.fallback_rules demo.no_adapters
                "stubbed transcript (no ASR client available)")
    as -> by (unfold orchestrator.respond in Hr; simpl in Hr; by injection Hr).
  exists w1, w2, (demo.tick i1), (demo.tick i2).
  split_and!; [exact Ha1 | exact Ha2 | exact (Hle tick_monotone)].
Defined.

(** The order of the timestamps is the order of the clock readings and
    nothing more: when the clock is set back between the two writes, the
    entry of the caller's text carries the later timestamp. *)
Lemma C9_counterexample :
  ∃ r w2,
    orchestrator.transcribe_and_respond (shipped.configured shipped.clock_set_back [])
      demo.call demo.empty_world = (Ret (shipped.canned_transcript, r), w2) ∧
    db_log w2 =
      [LogItem "call-1" "2024-01-01T00:00:01" shipped.canned_transcript "asr";
       LogItem "call-1" "2024-01-01T00:00:00" (default "" (lr_reply r)) "llm"] ∧
    ¬ PyStr.le "2024-01-01T00:00:01" "2024-01-01T00:00:00".
Proof.
  eexists _, _. split; [vm_compute; reflexivity|].
  split; [reflexivity | discriminate].
Qed.

(** ** Flow override *)

(** C2.  What the code does with a resolver result: the reply and the
    escalation decision of the resolver both always replace the
    pipeline's, also when the resolver's reply is [None].  The run shown
    is a call without media under the default settings, with one stored
    flow that has a node for another intent and no start node: the
    responder's reply is lost and the run ends with no reply at all. *)
Theorem C2_flow_override_replaces_reply :
  (∀ flow intent reply_text escalate,
     ∃ r e,
       flow_engine.run_flow flow intent = FlowResult (Some r) (Some e) ∧
       orchestrator.apply_flow_result (flow_engine.run_flow flow intent) reply_text escalate
         = (r, e)) ∧
  ∃ r w1 sm w' s,
    orchestrator.respond (shipped.service [shipped.support_flow])
      shipped.canned_transcript "call-1" w1 = (Ret r, w1) ∧
    lr_intent r = Some "account_balance" ∧
    lr_reply r = Some "Your account balance is â‚¹3,420." ∧
    flow_engine.run_flow shipped.support_flow (lr_intent r)
      = FlowResult (Some None) (Some false) ∧
    orchestrator.process_call (shipped.service [shipped.support_flow]) demo.call
      (demo.received (shipped.service [shipped.support_flow])) = (Ret sm, w') ∧
    s_intent sm = Some "account_balance" ∧
    s_reply sm = None ∧
    stored_session (shipped.service [shipped.support_flow]) w' "call-1" = Some s ∧
    s !! "last_reply" = Some VNone.
Proof.
  split.
  - intros flow intent reply_text escalate. unfold flow_engine.run_flow.
    destruct (List.find _ _); [by eexists _, _|].
    destruct (List.find _ _); by eexists _, _.
  - eexists _, demo.empty_world, _, _, _.
    split; [vm_compute; reflexivity|].
    split; [reflexivity|]. split; [reflexivity|]. split; [reflexivity|].
    split; [vm_compute; reflexivity|].
    split; [reflexivity|]. split; [reflexivity|].
    split; [vm_compute; reflexivity|].
    by vm_compute.
Qed.

(** ** Inbound call webhook *)

Lemma set_session_stores (E : env) c s w :
  ∃ w', session_store.set_session E c s w = (Ret tt, w') ∧
        (redis_sessions w' !! session_store._session_key c = Some s ∨
         INMEM_SESSIONS w' !! c = Some s) ∧
        (redis_client E = false ∨ faults w = [] → stored_session E w' c = Some s) ∧
        scheduled w' = scheduled w.
Proof.
  unfold session_store.set_session, session_store.redis_set, session_store.inmem_put,
    stored_session.
  destruct (redis_client E); unfold_m; simpl.
  - destruct (faults w) as [|[] fs] eqn:Hf; simpl;
      eexists; (split; [reflexivity|]); simpl; rewrite ?lookup_insert_eq;
      (split_and!; [by auto | | done]); by intros [?|?].
  - eexists; split; [reflexivity|]. simpl. rewrite lookup_insert_eq. by split_and!; auto.
Qed.

(** C6.  With a webhook secret configured, the call-start endpoint answers
    403 exactly when the [x-webhook-secret] header is present and differs
    from the secret, and then creates no session and schedules nothing.
    A request without the header is accepted: a session with status
    [received] is stored for the call and one pipeline run is scheduled. *)
Theorem C6_webhook_secret_check (E : env) (payload : CallWebhook)
    (x_webhook_secret : option string) (w : world) :
  WEBHOOK_SECRET E ≠ "" →
  let c := p_call_id payload in
  let task := if has_orchestrator E then TaskProcessCall payload
              else TaskStubProcessCall payload in
  ((∃ e w', webhooks.inbound_call E payload x_webhook_secret w = (Raise e, w')) ↔
   (∃ h, x_webhook_secret = Some h ∧ h ≠ WEBHOOK_SECRET E)) ∧
  (∀ h, x_webhook_secret = Some h → h ≠ WEBHOOK_SECRET E →
     webhooks.inbound_call E payload x_webhook_secret w =
       (Raise (HTTPException 403 "Invalid webhook secret"), w)) ∧
  (x_webhook_secret = None →
   ∃ w' s,
     webhooks.inbound_call E payload x_webhook_secret w
       = (Ret (webhooks.Accepted "accepted" c), w') ∧
     (redis_sessions w' !! session_store._session_key c = Some s ∨
      INMEM_SESSIONS w' !! c = Some s) ∧
     s !! "call_id" = Some (VStr c) ∧ s !! "status" = Some (VStr "received") ∧
     scheduled w' = (scheduled w ++ [task])%list).
Proof.
  intros Hsecret c task. apply nonempty_true in Hsecret.
  assert (Hacc : ∀ w0, ∃ w' s,
    (created_at ← utcnow E;
     last_update ← utcnow E;
     let session := webhooks.new_session payload created_at last_update in
     try_except (session_store.set_session E c session)
       (λ _, modify (λ w, set_webhooks_INMEM_SESSIONS
                            (<[c := session]> (webhooks_INMEM_SESSIONS w)) w));;
     (if has_orchestrator E then webhooks.add_task (TaskProcessCall payload)
      else webhooks.add_task (TaskStubProcessCall payload));;
     mret (webhooks.Accepted "accepted" c)) w0 = (Ret (webhooks.Accepted "accepted" c), w') ∧
    (redis_sessions w' !! session_store._session_key c = Some s ∨
     INMEM_SESSIONS w' !! c = Some s) ∧
    s !! "call_id" = Some (VStr c) ∧ s !! "status" = Some (VStr "received") ∧
    scheduled w' = (scheduled w0 ++ [task])%list).
  { intros w0. unfold utcnow, mbind, M_bind, bind, try_except.
    set (s := webhooks.new_session _ _ _).
    simpl.
    match goal with
    | |- context [session_store.set_session E c s ?w2] =>
        destruct (set_session_stores E c s w2) as (w1 & Hset & Hst & _ & Hsch)
    end.
    rewrite Hset. subst task.
    exists (set_scheduled (scheduled w1 ++ [if has_orchestrator E
                                            then TaskProcessCall payload
                                            else TaskStubProcessCall payload])%list w1), s.
    split; [by destruct (has_orchestrator E)|].
    split; [done|]. split; [done|]. split; [done|].
    simpl. by rewrite Hsch. }
  unfold webhooks.inbound_call. fold c. rewrite Hsecret. simpl.
  destruct x_webhook_secret as [h|].
  - rewrite bool_decide_true by done.
    destruct (decide (h = WEBHOOK_SECRET E)) as [->|Hne].
    + rewrite bool_decide_false by (intros H; by apply H).
      split_and!; [| intros h [= <-] Hh; done | done].
      split.
      * intros (e & w' & Hrun). exfalso. revert Hrun.
        destruct (Hacc w) as (w1 & s & Hrun & _).
        unfold mbind, M_bind, bind at 1, mret, M_ret, ret at 1. simpl.
        unfold mbind, M_bind, mret, M_ret in Hrun. rewrite Hrun. done.
      * intros (h & [= <-] & Hh). done.
    + rewrite bool_decide_true by congruence.
      split_and!; [| done | done].
      split; [intros _; by exists h | intros _; by eexists _, _].
  - rewrite bool_decide_false by (intros H; by apply H).
    split_and!; [| done |].
    + split; [| by intros (h & ? & _)].
      intros (e & w' & Hrun). exfalso. revert Hrun.
      destruct (Hacc w) as (w1 & s & Hrun & _).
      unfold mbind, M_bind, bind at 1, mret, M_ret, ret at 1. simpl.
      unfold mbind, M_bind, mret, M_ret in Hrun. rewrite Hrun. done.
    + intros _. destruct (Hacc w) as (w1 & s & Hrun & Hrest).
      exists w1, s. split; [|done].
      unfold mbind, M_bind, bind at 1, mret, M_ret, ret at 1. simpl.
      unfold mbind, M_bind, mret, M_ret in Hrun. by rewrite Hrun.
Qed.

Lemma C6_webhook_secret_check_witness :
  ∃ w' s,
    webhooks.inbound_call demo.no_adapters demo.call None demo.empty_world
      = (Ret (webhooks.Accepted "accepted" "call-1"), w') ∧
    (redis_sessions w' !! session_store._session_key "call-1" = Some s ∨
     INMEM_SESSIONS w' !! "call-1" = Some s) ∧
    s !! "call_id" = Some (VStr "call-1") ∧ s !! "status" = Some (VStr "received") ∧
    scheduled w' = [TaskProcessCall demo.call].
Proof.
  apply (C6_webhook_secret_check demo.no_adapters demo.call None demo.empty_world).
  - discriminate.
  - reflexivity.
Defined.

(** ** Session patch *)




(** * Further properties *)

(** ** Session store: reads and writes *)

Lemma transcripts_key_inj a b :
  session_store._transcripts_key a = session_store._transcripts_key b → a = b.
Proof. unfold session_store._transcripts_key. intros H. by apply String.app_inj in H. Qed.

Lemma get_session_ok (E : env) c w :
  store_ok E w → session_store.get_session E c w = (Ret (stored_session E w c), w).
Proof.
  unfold store_ok, session_store.get_session, session_store.get_session_ref,
    session_store.redis_get, session_store.inmem_get, stored_session.
  intros [Hr|Hf]; unfold_m.
  - by rewrite Hr.
  - destruct (redis_client E); [|done]. by rewrite Hf.
Qed.

Lemma set_session_ok (E : env) c s w :
  store_ok E w →
  ∃ w', session_store.set_session E c s w = (Ret tt, w') ∧
        stored_session E w' c = Some s ∧
        (∀ c', c' ≠ c → stored_session E w' c' = stored_session E w c') ∧
        sessions_only w w'.
Proof.
  unfold store_ok, session_store.set_session, session_store.redis_set,
    session_store.inmem_put, stored_session, sessions_only.
  intros Hok. destruct (redis_client E) eqn:Hr; unfold_m.
  - destruct Hok as [?|Hf]; [done|]. rewrite Hf. eexists. split; [reflexivity|]. simpl.
    rewrite lookup_insert_eq. split_and!; try done.
    intros c' Hc. rewrite lookup_insert_ne; [done|]. intros Hk. by apply session_key_inj in Hk.
  - eexists. split; [reflexivity|]. simpl. rewrite lookup_insert_eq. split_and!; try done.
    intros c' Hc. by rewrite lookup_insert_ne.
Qed.

(** X1.  A session saved with [set_session] is what [get_session] returns
    next for that call, and the sessions of the other calls are read as
    before, when the store is the in-memory one or Redis answers. *)
Theorem X1_set_then_get_session (E : env) (c : string) (s : session) (w : world) :
  store_ok E w →
  ∃ w',
    session_store.set_session E c s w = (Ret tt, w') ∧
    session_store.get_session E c w' = (Ret (Some s), w') ∧
    (∀ c', c' ≠ c →
       (session_store.get_session E c' w').1 = (session_store.get_session E c' w).1).
Proof.
  intros Hok.
  destruct (set_session_ok E c s w Hok) as (w' & Hset & Hst & Hothers & Hf & _).
  assert (Hok' : store_ok E w') by (unfold store_ok in *; rewrite Hf; done).
  exists w'. split_and!; [done | |].
  - by rewrite (get_session_ok E c w' Hok'), Hst.
  - intros c' Hc.
    by rewrite (get_session_ok E c' w' Hok'), (get_session_ok E c' w Hok), (Hothers c' Hc).
Qed.

Lemma X1_set_then_get_session_witness :
  ∃ w',
    session_store.set_session demo.no_adapters "call-1" {["status" := VStr "received"]}
      demo.empty_world = (Ret tt, w') ∧
    session_store.get_session demo.no_adapters "call-1" w'
      = (Ret (Some {["status" := VStr "received"]}), w').
Proof.
  destruct (X1_set_then_get_session demo.no_adapters "call-1" {["status" := VStr "received"]}
              demo.empty_world (or_introl eq_refl)) as (w' & Hset & Hget & _).
  by exists w'.
Defined.

(** X2.  A session saved while the Redis write fails goes to the
    in-memory dict only, and Redis holds what it held.  What the next
    [get_session] returns depends on Redis again: the saved session when
    the read fails too, and what Redis held before, not the saved
    session, when the read succeeds. *)
Theorem X2_session_saved_during_redis_failure (E : env) (c : string) (s : session)
    (w : world) (rest : list bool) :
  redis_client E = true → faults w = true :: rest →
  ∃ w' w'',
    session_store.set_session E c s w = (Ret tt, w') ∧
    INMEM_SESSIONS w' !! c = Some s ∧
    redis_sessions w' = redis_sessions w ∧
    session_store.get_session E c w'
      = (Ret (match rest with
              | true :: _ => Some s
              | _ => redis_sessions w !! session_store._session_key c
              end), w'').
Proof.
  intros Hr Hf.
  unfold session_store.set_session, session_store.get_session, session_store.get_session_ref,
    session_store.redis_set, session_store.redis_get, session_store.inmem_put,
    session_store.inmem_get.
  rewrite Hr. unfold_m. rewrite Hf. simpl.
  destruct rest as [|[] rest']; simpl;
    (eexists _, _; split; [reflexivity|]); simpl; rewrite ?lookup_insert_eq; done.
Qed.

Lemma X2_session_saved_during_redis_failure_witness :
  ∃ w' w'',
    session_store.set_session demo.failing_adapters "call-1" {["status" := VStr "received"]}
      demo.flaky_world = (Ret tt, w') ∧
    session_store.get_session demo.failing_adapters "call-1" w'
      = (Ret (Some {["status" := VStr "received"]}), w'').
Proof.
  destruct (X2_session_saved_during_redis_failure demo.failing_adapters "call-1"
              {["status" := VStr "received"]} demo.flaky_world [true]
              eq_refl eq_refl) as (w' & w'' & Hset & _ & _ & Hget).
  exists w', w''. split; [exact Hset | exact Hget].
Defined.

(** ** Session store: patches *)

Lemma update_session_ok (E : env) c patch w :
  store_ok E w →
  ∃ w', session_store.update_session E c patch w
          = (Ret (dict_update (default ∅ (stored_session E w c)) patch), w') ∧
        stored_session E w' c = Some (dict_update (default ∅ (stored_session E w c)) patch) ∧
        (∀ c', c' ≠ c → stored_session E w' c' = stored_session E w c') ∧
        store_ok E w' ∧
        clock w' = clock w ∧ db_transcripts w' = db_transcripts w ∧
        INMEM_TRANSCRIPTS w' = INMEM_TRANSCRIPTS w ∧ redis_lists w' = redis_lists w ∧
        scheduled w' = scheduled w.
Proof.
  intros Hok.
  destruct (update_session_any E c patch w)
    as (base & merged & w' & Hrun & -> & _ & Hgood & Hq & Hrest).
  destruct (Hgood Hok) as (-> & Hst & Hothers).
  exists w'. split_and!; try tauto.
  unfold store_ok in *. destruct Hok as [?|Hf]; [by left | right; by apply Hq].
Qed.

(** X3.  Two patches applied one after the other give the session that
    the second patch merged over the first gives in one step, and
    applying a patch a second time changes nothing, when the store is
    the in-memory one or Redis answers. *)
Theorem X3_update_session_composes (E : env) (c : string) (p1 p2 : session) (w : world) :
  store_ok E w →
  ∃ s1 w1 s2 w2,
    session_store.update_session E c p1 w = (Ret s1, w1) ∧
    session_store.update_session E c p2 w1 = (Ret s2, w2) ∧
    s2 = dict_update (default ∅ (stored_session E w c)) (p2 ∪ p1) ∧
    stored_session E w2 c = Some s2 ∧
    (p2 = p1 → s2 = s1).
Proof.
  intros Hok.
  destruct (update_session_ok E c p1 w Hok) as (w1 & Hrun1 & Hst1 & _ & Hok1 & _).
  destruct (update_session_ok E c p2 w1 Hok1) as (w2 & Hrun2 & Hst2 & _).
  rewrite Hst1 in Hrun2, Hst2. simpl in Hrun2, Hst2.
  eexists _, w1, _, w2. split_and!; [exact Hrun1 | exact Hrun2 | | exact Hst2 |].
  - unfold dict_update. by rewrite (assoc_L (∪)).
  - intros ->. unfold dict_update. by rewrite (assoc_L (∪)), (idemp_L (∪)).
Qed.

Lemma X3_update_session_composes_witness :
  ∃ s1 w1 s2 w2,
    session_store.update_session demo.no_adapters "call-1" {["status" := VStr "completed"]}
      demo.empty_world = (Ret s1, w1) ∧
    session_store.update_session demo.no_adapters "call-1" {["status" := VStr "completed"]}
      w1 = (Ret s2, w2) ∧
    s2 = s1.
Proof.
  destruct (X3_update_session_composes demo.no_adapters "call-1"
              {["status" := VStr "completed"]} {["status" := VStr "completed"]}
              demo.empty_world (or_introl eq_refl))
    as (s1 & w1 & s2 & w2 & H1 & H2 & _ & _ & Hsame).
  exists s1, w1, s2, w2. split_and!; [exact H1 | exact H2 | by apply Hsame].
Defined.

(** X4.  When the Redis read of [update_session] fails and its write
    succeeds, the patch is merged into the in-memory copy of the session
    and the result replaces the Redis document: a field that only the
    Redis document had is no longer stored. *)
Theorem X4_update_session_after_failed_read (E : env) (c : string) (patch : session)
    (fs : list bool) (w : world) :
  redis_client E = true → faults w = true :: false :: fs →
  let merged := dict_update (default ∅ (INMEM_SESSIONS w !! c)) patch in
  ∃ w',
    session_store.update_session E c patch w = (Ret merged, w') ∧
    redis_sessions w' !! session_store._session_key c = Some merged ∧
    (∀ k, patch !! k = None → INMEM_SESSIONS w !! c = None → merged !! k = None) ∧
    (∀ s, INMEM_SESSIONS w !! c = Some s → INMEM_SESSIONS w' !! c = Some merged).
Proof.
  intros Hr Hf merged. subst merged.
  unfold session_store.update_session, session_store.redis_get, session_store.redis_set,
    session_store.inmem_get, session_store.inmem_put.
  rewrite Hr. unfold_m. rewrite Hf. simpl.
  destruct (INMEM_SESSIONS w !! c) as [s|] eqn:Hs; simpl;
    eexists; (split; [reflexivity|]); simpl; rewrite ?lookup_insert_eq;
    split_and!; try done.
  intros k Hk _. by rewrite dict_update_frame.
Qed.

Lemma X4_update_session_after_failed_read_witness :
  ∃ merged w',
    session_store.update_session demo.failing_adapters "call-1"
      {["status" := VStr "completed"]}
      (World [true; false] 0 [] {["session:call-1" := {["from" := VStr "+15550001"]}]}
             ∅ ∅ ∅ ∅ []) = (Ret merged, w') ∧
    redis_sessions w' !! "session:call-1" = Some merged ∧
    merged !! "from" = None.
Proof.
  destruct (X4_update_session_after_failed_read demo.failing_adapters "call-1"
              {["status" := VStr "completed"]} []
              (World [true; false] 0 [] {["session:call-1" := {["from" := VStr "+15550001"]}]}
                     ∅ ∅ ∅ ∅ []) eq_refl eq_refl)
    as (w' & Hrun & Hredis & Hlost & _).
  eexists _, w'. split; [exact Hrun|]. split; [exact Hredis|].
  apply Hlost; reflexivity.
Defined.

(** ** Webhook: acceptance replaces the session *)

Lemma inbound_call_ok (E : env) (payload : CallWebhook)
    (x_webhook_secret : option string) (w : world) :
  store_ok E w →
  WEBHOOK_SECRET E = "" ∨ x_webhook_secret = None ∨
    x_webhook_secret = Some (WEBHOOK_SECRET E) →
  let c := p_call_id payload in
  ∃ w',
    webhooks.inbound_call E payload x_webhook_secret w
      = (Ret (webhooks.Accepted "accepted" c), w') ∧
    stored_session E w' c
      = Some (webhooks.new_session payload (now E (clock w)) (now E (S (clock w)))) ∧
    (∀ c', c' ≠ c → stored_session E w' c' = stored_session E w c') ∧
    scheduled w' = (scheduled w ++ [if has_orchestrator E then TaskProcessCall payload
                                    else TaskStubProcessCall payload])%list ∧
    faults w' = faults w ∧ clock w' = S (S (clock w)) ∧
    db_transcripts w' = db_transcripts w ∧ redis_lists w' = redis_lists w ∧
    INMEM_TRANSCRIPTS w' = INMEM_TRANSCRIPTS w.
Proof.
  intros Hok Hpass c.
  unfold webhooks.inbound_call. fold c.
  assert (Hguard :
    (if PyStr.nonempty (WEBHOOK_SECRET E) && bool_decide (x_webhook_secret ≠ None)
     then if bool_decide (x_webhook_secret ≠ Some (WEBHOOK_SECRET E))
          then raise (HTTPException 403 "Invalid webhook secret")
          else mret tt
     else mret tt) = (mret tt : M unit)).
  { destruct Hpass as [Hs|[->| ->]].
    - by rewrite Hs.
    - rewrite (bool_decide_false (None ≠ None)) by (intros H; by apply H).
      by rewrite andb_false_r.
    - rewrite (bool_decide_false (_ ≠ Some (WEBHOOK_SECRET E))) by (intros H; by apply H).
      by destruct (_ && _). }
  rewrite Hguard. unfold utcnow, mbind, M_bind, bind, mret, M_ret, ret, try_except. simpl.
  set (s := webhooks.new_session _ _ _).
  match goal with
  | |- context [session_store.set_session E c s ?w2] =>
      destruct (set_session_ok E c s w2) as (w1 & Hset & Hst & Hothers & Hsame)
  end.
  { unfold store_ok in *. simpl. done. }
  rewrite Hset. destruct Hsame as (Hf & Hcl & Hdb & Hrl & Him & _ & Hsch).
  simpl in Hsch, Hothers, Hf, Hcl, Hdb, Hrl, Him.
  exists (set_scheduled (scheduled w1 ++ [if has_orchestrator E then TaskProcessCall payload
                                          else TaskStubProcessCall payload])%list w1).
  split; [by destruct (has_orchestrator E)|].
  assert (Hproj : ∀ t c', stored_session E (set_scheduled t w1) c' = stored_session E w1 c')
    by (intros; unfold stored_session; by destruct (redis_client E)).
  rewrite !Hproj, Hst. split; [done|]. split.
  - intros c' Hc. rewrite Hproj, (Hothers c' Hc). unfold stored_session.
    by destruct (redis_client E).
  - simpl. by rewrite Hsch.
Qed.

(** X5.  A call-start request that passes the secret check (no secret
    configured, no header, or a matching header) replaces whatever session
    the store held for the call by a fresh one with status [received] and
    an empty transcript list, and schedules one more run, when the store
    is the in-memory one or Redis answers. *)
Theorem X5_inbound_call_replaces_session (E : env) (payload : CallWebhook)
    (x_webhook_secret : option string) (w : world) :
  store_ok E w →
  WEBHOOK_SECRET E = "" ∨ x_webhook_secret = None ∨
    x_webhook_secret = Some (WEBHOOK_SECRET E) →
  let c := p_call_id payload in
  ∃ w',
    webhooks.inbound_call E payload x_webhook_secret w
      = (Ret (webhooks.Accepted "accepted" c), w') ∧
    stored_session E w' c
      = Some (webhooks.new_session payload (now E (clock w)) (now E (S (clock w)))) ∧
    stored_status E w' c = Some (VStr "received") ∧
    (∀ c', c' ≠ c → stored_session E w' c' = stored_session E w c') ∧
    scheduled w' = (scheduled w ++ [if has_orchestrator E then TaskProcessCall payload
                                    else TaskStubProcessCall payload])%list.
Proof.
  intros Hok Hpass c.
  destruct (inbound_call_ok E payload x_webhook_secret w Hok Hpass)
    as (w' & Hrun & Hst & Hothers & Hsch & _).
  exists w'. unfold stored_status. fold c in Hst. rewrite Hst. done.
Qed.

Lemma X5_inbound_call_replaces_session_witness :
  ∃ w',
    webhooks.inbound_call demo.no_adapters demo.call (Some "changeme")
      (World [] 7 [] ∅ ∅ {["call-1" := {["status" := VStr "completed"]}]} ∅ ∅ [])
      = (Ret (webhooks.Accepted "accepted" "call-1"), w') ∧
    stored_status demo.no_adapters w' "call-1" = Some (VStr "received").
Proof.
  destruct (X5_inbound_call_replaces_session demo.no_adapters demo.call (Some "changeme")
              (World [] 7 [] ∅ ∅ {["call-1" := {["status" := VStr "completed"]}]} ∅ ∅ [])
              (or_introl eq_refl) (or_intror (or_intror eq_refl)))
    as (w' & Hrun & _ & Hstatus & _).
  exists w'. split; [exact Hrun | exact Hstatus].
Defined.

(** ** Transcripts in the session store *)

Lemma with_transcript_frame c e s k :
  k ≠ "transcripts" → with_transcript c e (Some s) !! k = s !! k.
Proof.
  intros Hk. unfold with_transcript.
  destruct (s !! "transcripts") as [[]|]; try destruct (truthy _);
    by rewrite ?lookup_insert_ne.
Qed.

Ltac finish_append :=
  simpl; (eexists; split; [reflexivity|]); simpl; rewrite ?lookup_insert_eq; simpl;
  split_and!; try done;
  try (intros ? ?; rewrite lookup_insert_ne; [done | by auto]).

Lemma append_transcript_ok (E : env) c e w :
  store_ok E w →
  ∃ w',
    session_store.append_transcript E c e w = (Ret tt, w') ∧
    stored_transcripts E w' c = (stored_transcripts E w c ++ [e])%list ∧
    (∀ c', c' ≠ c → stored_transcripts E w' c' = stored_transcripts E w c') ∧
    stored_session E w' c = Some (with_transcript c e (stored_session E w c)) ∧
    (∀ c', c' ≠ c → stored_session E w' c' = stored_session E w c') ∧
    faults w' = faults w ∧ clock w' = clock w ∧ db_transcripts w' = db_transcripts w ∧
    webhooks_INMEM_SESSIONS w' = webhooks_INMEM_SESSIONS w ∧ scheduled w' = scheduled w.
Proof.
  intros Hok.
  unfold session_store.append_transcript, session_store.get_session_ref,
    session_store.set_session, session_store.redis_rpush, session_store.redis_get,
    session_store.redis_set, session_store.inmem_append, session_store.inmem_get,
    session_store.inmem_put, session_store.appended_transcripts,
    stored_transcripts, stored_session, with_transcript.
  destruct (redis_client E) eqn:Hr.
  - destruct Hok as [?|Hf]; [congruence|]. unfold_m. simpl. rewrite Hf. simpl. rewrite Hf. simpl.
    assert (Hkey : ∀ c', c' ≠ c →
              session_store._transcripts_key c ≠ session_store._transcripts_key c')
      by (intros c' Hc Hk; by apply transcripts_key_inj in Hk).
    assert (Hskey : ∀ c', c' ≠ c →
              session_store._session_key c ≠ session_store._session_key c')
      by (intros c' Hc Hk; by apply session_key_inj in Hk).
    destruct (redis_sessions w !! session_store._session_key c) as [s|] eqn:Hs; simpl.
    + destruct (s !! "transcripts") as [[| b | t | l | d]|] eqn:Ht; simpl;
        try destruct b; try destruct (PyStr.nonempty t); try destruct (bool_decide (d = ∅));
        simpl; rewrite ?Hf; finish_append.
    + rewrite ?Hf; finish_append.
  - clear Hok. unfold_m. simpl. rewrite ?lookup_insert_eq.
    destruct (INMEM_SESSIONS w !! c) as [s|] eqn:Hs; simpl.
    + destruct (s !! "transcripts") as [[| b | t | l | d]|] eqn:Ht; simpl;
        try destruct b; try destruct (PyStr.nonempty t); try destruct (bool_decide (d = ∅));
        finish_append.
      all: intros c' Hc; by rewrite !lookup_insert_ne.
    + finish_append.
Qed.

(** X6.  [append_transcript] never raises while the store answers: the
    entry is added at the end of the transcript list of the call, and the
    session of the call is created if there was none, gets the entry at
    the end of its [transcripts] list, or is left as it was when
    [transcripts] holds a truthy value that is not a list.  Sessions and
    transcripts of other calls are untouched. *)
Theorem X6_append_transcript_effect (E : env) (c : string) (e : entry) (w : world) :
  store_ok E w →
  ∃ w',
    session_store.append_transcript E c e w = (Ret tt, w') ∧
    stored_transcripts E w' c = (stored_transcripts E w c ++ [e])%list ∧
    stored_session E w' c = Some (with_transcript c e (stored_session E w c)) ∧
    (∀ c', c' ≠ c → stored_transcripts E w' c' = stored_transcripts E w c' ∧
                    stored_session E w' c' = stored_session E w c').
Proof.
  intros Hok.
  destruct (append_transcript_ok E c e w Hok) as (w' & Hrun & Ht & Hto & Hs & Hso & _).
  exists w'. split_and!; try done. intros c' Hc. split; auto.
Qed.

Lemma X6_append_transcript_effect_witness :
  ∃ w',
    session_store.append_transcript demo.no_adapters "call-1"
      (Entry "call-1" "2024-01-01T08:00:00" "hello" "asr" None)
      (demo.received demo.no_adapters) = (Ret tt, w') ∧
    stored_transcripts demo.no_adapters w' "call-1"
      = [Entry "call-1" "2024-01-01T08:00:00" "hello" "asr" None].
Proof.
  destruct (X6_append_transcript_effect demo.no_adapters "call-1"
              (Entry "call-1" "2024-01-01T08:00:00" "hello" "asr" None)
              (demo.received demo.no_adapters) (or_introl eq_refl))
    as (w' & Hrun & Ht & _).
  exists w'. split; [exact Hrun | exact Ht].
Defined.

(** X7.  Agreement between a session and the transcript list of its call
    is kept by [append_transcript], for the call written to and for every
    other call, while the store answers. *)
Theorem X7_append_transcript_keeps_agreement (E : env) (c : string) (e : entry)
    (w : world) :
  store_ok E w →
  ∃ w',
    session_store.append_transcript E c e w = (Ret tt, w') ∧
    ∀ c', transcripts_agree E w c' → transcripts_agree E w' c'.
Proof.
  intros Hok.
  destruct (append_transcript_ok E c e w Hok) as (w' & Hrun & Ht & Hto & Hs & Hso & _).
  exists w'. split; [done|]. intros c' (s & Hst & Hl). unfold transcripts_agree.
  destruct (decide (c' = c)) as [->|Hc].
  - rewrite Hs, Ht, Hst. eexists; split; [reflexivity|].
    unfold with_transcript. rewrite Hl, fmap_app. simpl. by rewrite lookup_insert_eq.
  - rewrite (Hso c' Hc), (Hto c' Hc). eauto.
Qed.

Lemma X7_append_transcript_keeps_agreement_witness :
  ∃ w',
    session_store.append_transcript demo.no_adapters "call-1"
      (Entry "call-1" "2024-01-01T08:00:00" "hello" "asr" None)
      (demo.received demo.no_adapters) = (Ret tt, w') ∧
    transcripts_agree demo.no_adapters w' "call-1".
Proof.
  destruct (X7_append_transcript_keeps_agreement demo.no_adapters "call-1"
              (Entry "call-1" "2024-01-01T08:00:00" "hello" "asr" None)
              (demo.received demo.no_adapters) (or_introl eq_refl))
    as (w' & Hrun & Hkeep).
  exists w'. split; [exact Hrun|]. apply Hkeep.
  eexists. split; reflexivity.
Defined.

(** ** Session endpoint *)

Lemma api_get_session_ok (E : env) c w :
  store_ok E w →
  api_sessions.get_session E c w =
    (match stored_session E w c with
     | Some s => if bool_decide (s = ∅) then Raise (HTTPException 404 "session not found")
                 else Ret s
     | None => Raise (HTTPException 404 "session not found")
     end, w).
Proof.
  intros Hok. unfold api_sessions.get_session.
  unfold mbind, M_bind, bind, try_except. rewrite (get_session_ok E c w Hok).
  destruct (stored_session E w c) as [s|]; [|done]. simpl.
  by destruct (bool_decide (s = ∅)).
Qed.

(** X8.  [GET /sessions/{call_id}] answers 404 exactly when the store
    holds no session for the call or an empty one, and the stored session
    otherwise; it raises nothing else and changes nothing, while the store
    answers. *)
Theorem X8_session_endpoint_404 (E : env) (c : string) (w : world) :
  store_ok E w →
  ∃ o,
    api_sessions.get_session E c w = (o, w) ∧
    (∀ s, o = Ret s ↔ stored_session E w c = Some s ∧ s ≠ ∅) ∧
    (o = Raise (HTTPException 404 "session not found") ↔
       stored_session E w c = None ∨ stored_session E w c = Some ∅) ∧
    (∀ e, o = Raise e → e = HTTPException 404 "session not found").
Proof.
  intros Hok. rewrite (api_get_session_ok E c w Hok).
  eexists; split; [reflexivity|].
  destruct (stored_session E w c) as [s|]; [case_bool_decide as Hs|].
  - subst s. split_and!.
    + intros s. split; [done | by intros [[= <-] ?]].
    + split; auto.
    + by intros e [= <-].
  - split_and!.
    + intros s'. split; [by intros [= <-] | by intros [[= <-] ?]].
    + split; [done | by intros [? | [= ?]]].
    + done.
  - split_and!.
    + intros s. split; [done | by intros [? ?]].
    + split; auto.
    + by intros e [= <-].
Qed.

Lemma X8_session_endpoint_404_witness :
  api_sessions.get_session demo.no_adapters "call-9" (demo.received demo.no_adapters)
    = (Raise (HTTPException 404 "session not found"), demo.received demo.no_adapters).
Proof.
  destruct (X8_session_endpoint_404 demo.no_adapters "call-9"
              (demo.received demo.no_adapters) (or_introl eq_refl))
    as (o & Hrun & _ & H404 & _).
  rewrite Hrun. f_equal. apply H404. left. reflexivity.
Defined.

(** X9.  While the session store answers, a session just accepted by
    the webhook is what the session endpoint returns for its call: status
    [received], the caller and callee of the request, an empty transcript
    list. *)
Theorem X9_accepted_call_is_visible (E : env) (payload : CallWebhook)
    (x_webhook_secret : option string) (w : world) :
  store_ok E w →
  WEBHOOK_SECRET E = "" ∨ x_webhook_secret = None ∨
    x_webhook_secret = Some (WEBHOOK_SECRET E) →
  ∃ w' s,
    webhooks.inbound_call E payload x_webhook_secret w
      = (Ret (webhooks.Accepted "accepted" (p_call_id payload)), w') ∧
    api_sessions.get_session E (p_call_id payload) w' = (Ret s, w') ∧
    s !! "status" = Some (VStr "received") ∧
    s !! "from" = Some (opt_str (p_from payload)) ∧
    s !! "to" = Some (opt_str (p_to payload)) ∧
    s !! "transcripts" = Some (VList []).
Proof.
  intros Hok Hpass.
  destruct (inbound_call_ok E payload x_webhook_secret w Hok Hpass)
    as (w' & Hrun & Hst & _ & _ & Hf & _).
  exists w', (webhooks.new_session payload (now E (clock w)) (now E (S (clock w)))).
  split; [done|].
  assert (Hok' : store_ok E w') by (unfold store_ok in *; by rewrite Hf).
  rewrite (api_get_session_ok E _ w' Hok'), Hst.
  rewrite bool_decide_false; [done|].
  intros Hempty. apply (f_equal (λ m : session, m !! "call_id")) in Hempty.
  by rewrite lookup_empty in Hempty.
Qed.

Lemma X9_accepted_call_is_visible_witness :
  ∃ w' s,
    webhooks.inbound_call demo.no_adapters demo.call None demo.empty_world
      = (Ret (webhooks.Accepted "accepted" "call-1"), w') ∧
    api_sessions.get_session demo.no_adapters "call-1" w' = (Ret s, w') ∧
    s !! "status" = Some (VStr "received").
Proof.
  destruct (X9_accepted_call_is_visible demo.no_adapters demo.call None demo.empty_world
              (or_introl eq_refl) (or_intror (or_introl eq_refl)))
    as (w' & s & Hrun & Hget & Hstatus & _).
  exists w', s. split; [exact Hrun|]. split; [exact Hget | exact Hstatus].
Defined.

(** ** Transcript store: saving *)

Lemma table_ids_fresh rows m :
  table_ids_ok rows → m ∈ rows → r_id m ≠ S (List.length rows).
Proof.
  intros Hids Hm. apply list_elem_of_lookup in Hm as [i Hi].
  rewrite (Hids i m Hi). apply lookup_lt_Some in Hi. lia.
Qed.

Lemma table_ids_ok_snoc rows r :
  table_ids_ok rows → r_id r = S (List.length rows) → table_ids_ok (rows ++ [r])%list.
Proof.
  intros Hids Hr i x Hx. apply lookup_app_Some in Hx as [Hx|[Hi Hx]].
  - by apply Hids.
  - apply list_lookup_singleton_Some in Hx as [Hz <-]. rewrite Hr. lia.
Qed.

Lemma save_transcript_db_ok e w :
  db_ok w → table_ids_ok (db_transcripts w) →
  let row := Row (S (List.length (db_transcripts w))) (e_call_id e) (e_timestamp e)
                 (e_text e) (e_source e) (default "" (e_created_at e)) in
  ∃ w',
    transcripts_store.save_transcript_db e w = (Ret (Some row), w') ∧
    db_transcripts w' = (db_transcripts w ++ [row])%list ∧
    clock w' = clock w ∧ redis_sessions w' = redis_sessions w ∧
    redis_lists w' = redis_lists w ∧ INMEM_SESSIONS w' = INMEM_SESSIONS w ∧
    INMEM_TRANSCRIPTS w' = INMEM_TRANSCRIPTS w ∧
    webhooks_INMEM_SESSIONS w' = webhooks_INMEM_SESSIONS w ∧ scheduled w' = scheduled w ∧
    quiet w w'.
Proof.
  intros Hok Hids row.
  assert (Hfind : List.find (λ r, bool_decide (r_id r = S (List.length (db_transcripts w))))
                    (db_transcripts w ++ [row])%list = Some row).
  { apply (find_first _ _ (db_transcripts w) [] row); [done | by apply bool_decide_eq_true |].
    intros m Hm. rewrite bool_decide_eq_true. by apply table_ids_fresh. }
  unfold transcripts_store.save_transcript_db, quiet, db_ok in *. unfold_m.
  destruct (faults w) as [|[] [|[] fs]] eqn:Hf; simpl in Hok;
    try (exfalso; apply Hok; set_solver);
    simpl; rewrite ?Hf; simpl; fold row; rewrite Hfind;
    eexists; split_and!; try done; simpl; congruence.
Qed.

Lemma save_transcript_touch_eq (E : env) e w :
  ∃ e' w1,
    transcripts_store.save_transcript_touch E e w = (Ret e', w1) ∧
    e_call_id e' = e_call_id e ∧ e_text e' = e_text e ∧ e_source e' = e_source e ∧
    e_timestamp e' = (if PyStr.nonempty (e_timestamp e) then e_timestamp e
                      else now E (clock w)) ∧
    (∀ c, e_created_at e = Some c → c ≠ "" → e_created_at e' = Some c) ∧
    (∃ ca, e_created_at e' = Some ca) ∧
    clock_only w w1.
Proof.
  unfold transcripts_store.save_transcript_touch, utcnow, clock_only. unfold_m.
  destruct (PyStr.nonempty (e_timestamp e)) eqn:Hts; simpl;
    (destruct (e_created_at e) as [ca|]; [destruct (PyStr.nonempty ca) eqn:Hca|]); simpl;
    eexists _, _; (split; [reflexivity|]); simpl; split_and!; try done; eauto;
    try lia; try (intros c [= <-] Hc; by destruct ca).
Qed.

Lemma save_transcript_ok (E : env) e w :
  db_ok w → table_ids_ok (db_transcripts w) →
  ∃ row w',
    transcripts_store.save_transcript E e w = (Ret (Some row), w') ∧
    db_transcripts w' = (db_transcripts w ++ [row])%list ∧
    r_id row = S (List.length (db_transcripts w)) ∧
    r_call_id row = e_call_id e ∧ r_text row = e_text e ∧ r_source row = e_source e ∧
    r_timestamp row = (if PyStr.nonempty (e_timestamp e) then e_timestamp e
                       else now E (clock w)) ∧
    (∀ c, e_created_at e = Some c → c ≠ "" → r_created_at row = c) ∧
    (clock w ≤ clock w')%nat ∧ redis_sessions w' = redis_sessions w ∧
    redis_lists w' = redis_lists w ∧ INMEM_SESSIONS w' = INMEM_SESSIONS w ∧
    INMEM_TRANSCRIPTS w' = INMEM_TRANSCRIPTS w ∧ scheduled w' = scheduled w ∧
    quiet w w'.
Proof.
  intros Hok Hids.
  destruct (save_transcript_touch_eq E e w)
    as (e' & w1 & Htouch & Hc & Ht & Hs & Hts & Hca & _ & Hclock).
  destruct Hclock as (Hcl & Hf & Hdb & Him & Hrl & Hsch & Hims & Hrs).
  destruct (save_transcript_db_ok e' w1) as (w' & Hrun & Hdb' & Hrest).
  { unfold db_ok in *. by rewrite Hf. }
  { by rewrite Hdb. }
  destruct Hrest as (Hcl' & Hrs' & Hrl' & Hims' & Him' & _ & Hsch' & Hq).
  eexists _, w'. unfold transcripts_store.save_transcript.
  unfold mbind, M_bind, bind. rewrite Htouch, Hrun. split; [reflexivity|]. simpl.
  rewrite Hdb', Hdb, Hc, Ht, Hs, Hts.
  split_and!; try done; try congruence; try lia.
  - intros c Hcs Hne. by rewrite (Hca c Hcs Hne).
  - unfold quiet in *. rewrite Hf in Hq. done.
Qed.

(** X10.  When the database answers, [save_transcript] inserts one row
    and returns that very row: it carries the next identifier, the call,
    text and source of the entry, the entry's own timestamp, or the
    current time when the entry has none or an empty one, and the entry's
    [created_at] when it has one.  The identifiers of the table stay the
    ones the database gave out. *)
Theorem X10_save_transcript_returns_row (E : env) (e : entry) (w : world) :
  db_ok w → table_ids_ok (db_transcripts w) →
  ∃ row w',
    transcripts_store.save_transcript E e w = (Ret (Some row), w') ∧
    db_transcripts w' = (db_transcripts w ++ [row])%list ∧
    table_ids_ok (db_transcripts w') ∧
    r_id row = S (List.length (db_transcripts w)) ∧
    r_call_id row = e_call_id e ∧ r_text row = e_text e ∧ r_source row = e_source e ∧
    (e_timestamp e ≠ "" → r_timestamp row = e_timestamp e) ∧
    (e_timestamp e = "" → r_timestamp row = now E (clock w)) ∧
    (∀ c, e_created_at e = Some c → c ≠ "" → r_created_at row = c).
Proof.
  intros Hok Hids.
  destruct (save_transcript_ok E e w Hok Hids)
    as (row & w' & Hrun & Hdb & Hid & Hc & Ht & Hs & Hts & Hca & _).
  exists row, w'. split_and!; try done.
  - rewrite Hdb. by apply table_ids_ok_snoc.
  - intros Hne. apply nonempty_true in Hne. by rewrite Hts, Hne.
  - intros He. by rewrite Hts, He.
Qed.

Lemma X10_save_transcript_returns_row_witness :
  ∃ row w',
    transcripts_store.save_transcript demo.failing_adapters
      (Entry "call-2" "" "pay my bill" "asr" None) demo.db_world = (Ret (Some row), w') ∧
    r_id row = 5 ∧ r_text row = "pay my bill" ∧ r_timestamp row = demo.tick 0.
Proof.
  destruct (X10_save_transcript_returns_row demo.failing_adapters
              (Entry "call-2" "" "pay my bill" "asr" None) demo.db_world)
    as (row & w' & Hrun & _ & _ & Hid & _ & Htext & _ & _ & Hts & _).
  - unfold db_ok. simpl. apply not_elem_of_nil.
  - intros i r Hr. unfold demo.db_world, demo.rows in Hr. simpl in Hr.
    destruct i as [|[|[|[|i]]]]; simpl in Hr; try discriminate;
      injection Hr as <-; reflexivity.
  - exists row, w'. split; [exact Hrun|]. split; [exact Hid|].
    split; [exact Htext | exact (Hts eq_refl)].
Defined.

(** ** Transcript store: saving, then querying *)

Lemma select_transcripts_all call_id from_ts to_ts (limit : Z) rows r :
  (limit < 0 ∨ Z.of_nat (List.length rows) ≤ limit)%Z →
  r ∈ rows → in_window call_id from_ts to_ts r →
  r ∈ transcripts_store.select_transcripts call_id from_ts to_ts limit rows.
Proof.
  intros Hlimit Hr Hw. unfold transcripts_store.select_transcripts.
  set (sel := List.filter _ rows).
  assert (Hin : r ∈ merge_sort transcripts_store.newer_first sel).
  { rewrite merge_sort_Permutation. unfold sel.
    rewrite list_elem_of_In, List.filter_In, row_selected_spec, <- list_elem_of_In. done. }
  unfold transcripts_store.sql_limit. destruct (Z.ltb_spec limit 0) as [|Hpos]; [done|].
  rewrite take_ge; [done|].
  rewrite (Permutation_length (merge_sort_Permutation _ sel)).
  pose proof (List.filter_length_le (transcripts_store.row_selected call_id from_ts to_ts) rows).
  fold sel in H. lia.
Qed.

(** X11.  A transcript saved while the database answers is found by the
    next query for its call, whenever the limit is negative or exceeds the
    size of the table; every other row returned was in the table before. *)
Theorem X11_saved_transcript_is_found (E : env) (e : entry) (limit : Z) (w : world) :
  faults w = [] → table_ids_ok (db_transcripts w) →
  (limit < 0 ∨ Z.of_nat (List.length (db_transcripts w)) < limit)%Z →
  ∃ row w' rows,
    transcripts_store.save_transcript E e w = (Ret (Some row), w') ∧
    transcripts_store.query_transcripts (Some (e_call_id e)) None None limit w'
      = (Ret rows, w') ∧
    row ∈ rows ∧ r_text row = e_text e ∧ r_source row = e_source e ∧
    (∀ r, r ∈ rows → r = row ∨ r ∈ db_transcripts w).
Proof.
  intros Hf Hids Hlimit.
  destruct (save_transcript_ok E e w) as
    (row & w' & Hrun & Hdb & Hid & Hc & Ht & Hs & _ & _ & _ & _ & _ & _ & _ & _ & Hq);
    [unfold db_ok; rewrite Hf; apply not_elem_of_nil | done |].
  specialize (Hq Hf).
  exists row, w', (transcripts_store.select_transcripts (Some (e_call_id e)) None None limit
                     (db_transcripts w')).
  split; [done|]. split.
  { unfold transcripts_store.query_transcripts. unfold_m. by rewrite Hq. }
  split_and!; [| done | done |].
  - apply select_transcripts_all.
    + rewrite Hdb, length_app. simpl. lia.
    + rewrite Hdb. apply elem_of_app. right. by apply list_elem_of_singleton.
    + unfold in_window. split_and!; [|done|done]. intros c [= <-] _. done.
  - intros r Hr.
    destruct (select_transcripts_spec (Some (e_call_id e)) None None limit (db_transcripts w'))
      as (Hin & _).
    apply Hin in Hr as [Hr _]. rewrite Hdb in Hr.
    apply elem_of_app in Hr as [Hr|Hr]; [by right | left].
    by apply list_elem_of_singleton in Hr.
Qed.

Lemma X11_saved_transcript_is_found_witness :
  ∃ row w' rows,
    transcripts_store.save_transcript demo.failing_adapters
      (Entry "call-2" "" "pay my bill" "asr" None) demo.db_world = (Ret (Some row), w') ∧
    transcripts_store.query_transcripts (Some "call-2") None None 100 w' = (Ret rows, w') ∧
    row ∈ rows ∧ r_text row = "pay my bill".
Proof.
  destruct (X11_saved_transcript_is_found demo.failing_adapters
              (Entry "call-2" "" "pay my bill" "asr" None) 100 demo.db_world)
    as (row & w' & rows & Hrun & Hq & Hin & Htext & _).
  - reflexivity.
  - intros i r Hr. unfold demo.db_world, demo.rows in Hr. simpl in Hr.
    destruct i as [|[|[|[|i]]]]; simpl in Hr; try discriminate;
      injection Hr as <-; reflexivity.
  - right. simpl. lia.
  - exists row, w', rows. split; [exact Hrun|]. split; [exact Hq|].
    split; [exact Hin | exact Htext].
Defined.

(** X12.  When the insert into the database succeeds and the read-back
    fails, [_save_transcript_entry] has put the row in the table and then
    also hands the entry to the session store: the same entry is recorded
    twice. *)
Theorem X12_entry_recorded_twice (E : env) (c text source : string) (w : world)
    (fs : list bool) :
  has_transcripts_store E = true → faults w = false :: true :: fs →
  ∃ w' i,
    orchestrator._save_transcript_entry E c text source w = (Ret tt, w') ∧
    let it := LogItem c (now E i) text source in
    db_log w' = (db_log w ++ [it])%list ∧
    (mem_log w' c = (mem_log w c ++ [it])%list ∨
     redis_log w' c = (redis_log w c ++ [it])%list).
Proof.
  intros Hstore Hf.
  unfold orchestrator._save_transcript_entry. rewrite Hstore.
  unfold utcnow at 1. unfold mbind, M_bind, bind at 1.
  set (w0 := set_clock (S (clock w)) w).
  set (e := Entry c (now E (clock w)) text source None).
  destruct (save_transcript_touch_eq E e w0)
    as (e' & w1 & Htouch & Hc & Ht & Hs & Hts & _ & _ & Hclock).
  destruct Hclock as (_ & Hf1 & Hdb1 & Him1 & Hrl1 & _).
  unfold bind at 1. rewrite Htouch.
  assert (∃ i, entry_item e' = LogItem c (now E i) text source) as [i Hi].
  { unfold entry_item. rewrite Hc, Ht, Hs, Hts. subst e w0. simpl.
    destruct (PyStr.nonempty _); eauto. }
  set (row := Row (S (List.length (db_transcripts w1))) (e_call_id e') (e_timestamp e')
                  (e_text e') (e_source e') (default "" (e_created_at e'))).
  assert (Hdb : transcripts_store.save_transcript_db e' w1
                = (Raise (Exception "I/O error"),
                   set_faults fs (set_db_transcripts (db_transcripts w1 ++ [row])%list
                                    (set_faults (true :: fs) w1)))).
  { unfold transcripts_store.save_transcript_db. unfold_m.
    rewrite Hf1. subst w0. simpl. rewrite Hf. simpl. done. }
  unfold try_except at 1. unfold bind at 1. rewrite Hdb.
  set (w2 := set_faults fs _).
  destruct (returns_elim _ _ _ (append_transcript_spec E c e' w2))
    as ([] & w' & Happ & _ & Hdb' & _ & _ & _ & _ & Hor).
  exists w', i. unfold try_except. rewrite Happ. split; [done|]. simpl.
  rewrite <- Hi. unfold db_log, mem_log, redis_log in *. rewrite Hdb'.
  subst w2. simpl in *. rewrite Hdb1, Him1, Hrl1 in *. subst w0. simpl in *.
  rewrite fmap_app. done.
Qed.

Lemma X12_entry_recorded_twice_witness :
  ∃ w' i,
    orchestrator._save_transcript_entry demo.failing_adapters "call-1" "hello" "asr"
      (World [false; true] 0 [] ∅ ∅ ∅ ∅ ∅ []) = (Ret tt, w') ∧
    db_log w' = [LogItem "call-1" (demo.tick i) "hello" "asr"].
Proof.
  destruct (X12_entry_recorded_twice demo.failing_adapters "call-1" "hello" "asr"
              (World [false; true] 0 [] ∅ ∅ ∅ ∅ ∅ []) [] eq_refl eq_refl)
    as (w' & i & Hrun & Hdb & _).
  exists w', i. split; [exact Hrun | exact Hdb].
Defined.

(** ** What a run does to the session store *)

Lemma store_kept_refl w : store_kept w w.
Proof. by unfold store_kept, quiet. Qed.

Lemma store_kept_reads (E : env) w w' :
  store_kept w w' →
  (store_ok E w → store_ok E w') ∧
  (∀ c, stored_session E w' c = stored_session E w c) ∧
  (∀ c, stored_transcripts E w' c = stored_transcripts E w c).
Proof.
  intros (Hrs & Him & Hrl & Hit & Hq). unfold store_ok, stored_session, stored_transcripts.
  rewrite Hrs, Him, Hrl, Hit. split_and!; [|done|done].
  intros [?|Hf]; [by left | right; by apply Hq].
Qed.

Lemma session_step_none (E : env) c w w' :
  store_kept w w' → session_step E c None w w'.
Proof.
  intros Hk. destruct (store_kept_reads E w w' Hk) as (_ & Hs & Ht).
  unfold session_step. simpl. rewrite app_nil_r. by split_and!.
Qed.

Lemma save_transcript_db_store e w :
  wp (transcripts_store.save_transcript_db e) w
    (λ _ w', store_kept w w' ∧ clock w' = clock w)
    (λ _ w', store_kept w w' ∧ clock w' = clock w ∧ faults w ≠ []).
Proof.
  unfold wp, transcripts_store.save_transcript_db, store_kept, quiet. unfold_m.
  destruct (faults w) as [|[] fs] eqn:Hf; simpl; rewrite ?Hf; simpl.
  - by split_and!.
  - by split_and!.
  - destruct fs as [|[] fs']; simpl; by split_and!.
Qed.

Lemma _save_transcript_entry_store (E : env) c text source w :
  store_ok E w →
  ∃ w' added,
    orchestrator._save_transcript_entry E c text source w = (Ret tt, w') ∧
    store_ok E w' ∧ quiet w w' ∧ session_step E c added w w' ∧
    (has_transcripts_store E = false →
       added = Some (Entry c (now E (clock w)) text source None) ∧
       clock w' = S (clock w)) ∧
    (has_transcripts_store E = true → faults w = [] → added = None).
Proof.
  intros Hok.
  unfold orchestrator._save_transcript_entry.
  unfold utcnow at 1. unfold mbind, M_bind, bind at 1.
  set (w0 := set_clock (S (clock w)) w).
  assert (Hk0 : store_kept w w0) by (by unfold store_kept, quiet).
  set (e := Entry c (now E (clock w)) text source None).
  assert (Hfall : ∀ e' w2, store_kept w w2 →
    ∃ w', try_except (session_store.append_transcript E c e') (λ _, mret tt) w2 = (Ret tt, w') ∧
          store_ok E w' ∧ quiet w w' ∧ session_step E c (Some e') w w' ∧
          clock w' = clock w2).
  { intros e' w2 Hk2. destruct (store_kept_reads E w w2 Hk2) as (Hok2 & Hs2 & Ht2).
    destruct (append_transcript_ok E c e' w2 (Hok2 Hok))
      as (w' & Hrun & Ht & Hto & Hs & Hso & Hf & Hcl & _).
    exists w'. unfold try_except. rewrite Hrun. split; [done|].
    split; [|split; [|split; [|done]]].
    - specialize (Hok2 Hok). unfold store_ok in *. by rewrite Hf.
    - destruct Hk2 as (_ & _ & _ & _ & Hq). unfold quiet in *. rewrite Hf. done.
    - unfold session_step. simpl. rewrite Hs, Ht, Hs2, Ht2. split_and!; try done.
      intros c' Hc. by rewrite (Hso c' Hc), (Hto c' Hc), Hs2, Ht2. }
  destruct (has_transcripts_store E) eqn:Hstore.
  - destruct (save_transcript_touch_eq E e w0) as (e' & w1 & Htouch & _ & _ & _ & _ & _ & _ & Hcl).
    unfold bind at 1. rewrite Htouch.
    assert (Hk1 : store_kept w w1).
    { destruct Hcl as (_ & Hf & _ & Hit & Hrl & _ & Him & Hrs). unfold store_kept, quiet.
      rewrite Hrs, Him, Hrl, Hit, Hf. by subst w0. }
    assert (Hf1 : faults w1 = faults w) by (destruct Hcl as (_ & -> & _); by subst w0).
    pose proof (save_transcript_db_store e' w1) as Hdb. unfold wp in Hdb.
    unfold try_except at 1. unfold bind at 1.
    destruct (transcripts_store.save_transcript_db e' w1) as [[row|ex] w2].
    + destruct Hdb as [Hk2 _]. exists w2, None. split; [done|].
      assert (Hk : store_kept w w2).
      { destruct Hk1 as (? & ? & ? & ? & ?), Hk2 as (? & ? & ? & ? & ?).
        unfold store_kept. split_and!; first [congruence | by etrans]. }
      split_and!; try done.
      * by apply (store_kept_reads E w w2).
      * by destruct Hk as (_ & _ & _ & _ & ?).
      * by apply session_step_none.
    + destruct Hdb as (Hk2 & _ & Hne).
      assert (Hk : store_kept w w2).
      { destruct Hk1 as (? & ? & ? & ? & ?), Hk2 as (? & ? & ? & ? & ?).
        unfold store_kept. split_and!; first [congruence | by etrans]. }
      destruct (Hfall e' w2 Hk) as (w' & Hrun & Hok' & Hq' & Hstep & _).
      exists w', (Some e'). rewrite Hrun. split_and!; try done.
      intros _ Hf. rewrite Hf1 in Hne. done.
  - destruct (Hfall e w0 Hk0) as (w' & Hrun & Hok' & Hq' & Hstep & Hcl).
    exists w', (Some e). rewrite Hrun. by split_and!.
Qed.

Lemma override_and_finish_store (E : env) payload r w :
  store_ok E w →
  let c := p_call_id payload in
  ∃ sm w',
    orchestrator.override_and_finish E payload r w = (Ret sm, w') ∧
    stored_session E w' c
      = Some (dict_update (default ∅ (stored_session E w c))
                (orchestrator.final_patch (s_intent sm) (s_reply sm) (s_media_out sm)
                   (s_agent sm) (s_escalated sm) (now E (clock w)))) ∧
    (∀ c', c' ≠ c → stored_session E w' c' = stored_session E w c') ∧
    (∀ c', stored_transcripts E w' c' = stored_transcripts E w c').
Proof.
  intros Hok c. unfold orchestrator.override_and_finish. fold c.
  unfold mbind, M_bind, bind, mret, M_ret, ret.
  rewrite flow_override_eq.
  set (fr := if has_flow_engine E then _ else _). destruct fr as [reply_text escalate].
  destruct (synthesize_eq E reply_text c w) as (media_out & Hsyn). rewrite Hsyn.
  destruct (escalation_eq E escalate c w) as (agent & Hesc & _). rewrite Hesc.
  unfold utcnow.
  set (w0 := set_clock (S (clock w)) w).
  destruct (_update_session_spec E c
              (orchestrator.final_patch (lr_intent r) reply_text media_out agent escalate
                 (now E (clock w))) w0)
    as (base & w' & Hup & _ & Hst & _ & _ & _ & Hit & Hrl & _).
  rewrite Hup. eexists _, w'. split; [reflexivity|]. simpl.
  destruct Hst as (-> & Hs & Hothers); [done|].
  split_and!; [done | done |].
  intros c'. unfold stored_transcripts. by rewrite Hit, Hrl.
Qed.

(** The whole run, seen from the session store: two transcript writes,
    then the final patch laid over the session of the call. *)
Lemma process_call_store (E : env) payload w :
  store_ok E w →
  let c := p_call_id payload in
  ∃ sm asr_text r a1 a2 w1 w2 w',
    orchestrator.process_call E payload w = (Ret sm, w') ∧
    orchestrator.transcribe E (p_media_url payload) w = (Ret asr_text, w) ∧
    orchestrator.respond E asr_text c w1 = (Ret r, w1) ∧
    session_step E c a1 w w1 ∧ session_step E c a2 w1 w2 ∧
    (has_transcripts_store E = false →
       a1 = Some (Entry c (now E (clock w)) asr_text "asr" None) ∧
       a2 = Some (Entry c (now E (S (clock w))) (default "" (lr_reply r)) "llm" None)) ∧
    (has_transcripts_store E = true → faults w = [] → a1 = None ∧ a2 = None) ∧
    stored_session E w' c
      = Some (dict_update (default ∅ (stored_session E w2 c))
                (orchestrator.final_patch (s_intent sm) (s_reply sm) (s_media_out sm)
                   (s_agent sm) (s_escalated sm) (now E (clock w2)))) ∧
    (∀ c', c' ≠ c → stored_session E w' c' = stored_session E w2 c') ∧
    (∀ c', stored_transcripts E w' c' = stored_transcripts E w2 c').
Proof.
  intros Hok c.
  destruct (transcribe_eq E (p_media_url payload) w) as (t & Ht & _).
  destruct (_save_transcript_entry_store E c t "asr" w Hok)
    as (w1 & a1 & Hs1 & Hok1 & Hq1 & Hstep1 & Hmem1 & Hdb1).
  destruct (respond_eq E t c w1) as (r & Hr & _).
  destruct (_save_transcript_entry_store E c (default "" (lr_reply r)) "llm" w1 Hok1)
    as (w2 & a2 & Hs2 & Hok2 & Hq2 & Hstep2 & Hmem2 & Hdb2).
  destruct (override_and_finish_store E payload r w2 Hok2)
    as (sm & w' & Hfin & Hst & Hothers & Htr).
  exists sm, t, r, a1, a2, w1, w2, w'.
  assert (Hfirst : orchestrator.transcribe_and_respond E payload w = (Ret (t, r), w2)).
  { unfold orchestrator.transcribe_and_respond. fold c.
    unfold mbind, M_bind, bind, mret, M_ret, ret. by rewrite Ht, Hs1, Hr, Hs2. }
  rewrite (process_call_unfold E payload w t r w2 Hfirst).
  split_and!; try done.
  - intros H. destruct (Hmem1 H) as [-> Hc1], (Hmem2 H) as [-> _]. by rewrite Hc1.
  - intros H Hf. split; auto.
Qed.

Lemma session_step_frame (E : env) c a w w' s :
  session_step E c a w w' → stored_session E w c = Some s →
  ∃ s', stored_session E w' c = Some s' ∧ ∀ k, k ≠ "transcripts" → s' !! k = s !! k.
Proof.
  intros (Hs & _) Hst. rewrite Hst in Hs. destruct a as [e|]; eexists; (split; [exact Hs|]).
  - intros k Hk. by apply with_transcript_frame.
  - done.
Qed.

Lemma final_patch_frame intent reply_text media_out agent escalate t k :
  k ∉ final_patch_keys →
  orchestrator.final_patch intent reply_text media_out agent escalate t !! k = None.
Proof.
  unfold final_patch_keys, orchestrator.final_patch. intros Hk.
  rewrite !not_elem_of_cons in Hk. destruct Hk as (? & ? & ? & ? & ? & ? & _).
  by rewrite !lookup_insert_ne, lookup_empty.
Qed.

(** X13.  A run changes, in the session of its call, only the six fields
    of its final patch and the transcript list: every other field the
    session had ([call_id], [from], [to], [created_at], ...) is there at
    the end with the value it had, and the sessions of other calls are as
    before, while the session store answers. *)
Theorem X13_process_call_keeps_other_fields (E : env) (payload : CallWebhook)
    (w : world) (s : session) :
  store_ok E w → stored_session E w (p_call_id payload) = Some s →
  ∃ sm w' s',
    orchestrator.process_call E payload w = (Ret sm, w') ∧
    stored_session E w' (p_call_id payload) = Some s' ∧
    (∀ k, k ≠ "transcripts" → k ∉ final_patch_keys → s' !! k = s !! k) ∧
    (∀ c', c' ≠ p_call_id payload → stored_session E w' c' = stored_session E w c').
Proof.
  intros Hok Hst.
  destruct (process_call_store E payload w Hok)
    as (sm & t & r & a1 & a2 & w1 & w2 & w' & Hrun & _ & _ & Hstep1 & Hstep2 & _ & _ &
        Hfin & Hothers & _).
  destruct (session_step_frame E _ a1 w w1 s Hstep1 Hst) as (s1 & Hst1 & Hk1).
  destruct (session_step_frame E _ a2 w1 w2 s1 Hstep2 Hst1) as (s2 & Hst2 & Hk2).
  rewrite Hst2 in Hfin. simpl in Hfin.
  eexists sm, w', _. split; [exact Hrun|]. split; [exact Hfin|]. split.
  - intros k Hk Hkeys. rewrite dict_update_frame by by apply final_patch_frame.
    by rewrite Hk2, Hk1.
  - intros c' Hc. rewrite (Hothers c' Hc).
    destruct Hstep1 as (_ & _ & H1), Hstep2 as (_ & _ & H2).
    destruct (H1 c' Hc) as [<- _], (H2 c' Hc) as [-> _]. done.
Qed.

Lemma X13_process_call_keeps_other_fields_witness :
  ∃ sm w' s',
    orchestrator.process_call demo.agent_request demo.call (demo.received demo.agent_request)
      = (Ret sm, w') ∧
    stored_session demo.agent_request w' "call-1" = Some s' ∧
    s' !! "from" = Some (VStr "+15550001").
Proof.
  destruct (X13_process_call_keeps_other_fields demo.agent_request demo.call
              (demo.received demo.agent_request)
              (webhooks.new_session demo.call (demo.tick 0) (demo.tick 1))
              (or_introl eq_refl) eq_refl)
    as (sm & w' & s' & Hrun & Hst & Hkeep & _).
  exists sm, w', s'. split; [exact Hrun|]. split; [exact Hst|].
  rewrite (Hkeep "from"); [reflexivity | discriminate |].
  unfold final_patch_keys. rewrite !not_elem_of_cons. split_and!; try discriminate.
  apply not_elem_of_nil.
Defined.

(** X14.  Without the transcript store module and while the session
    store answers, a run on a call whose session holds a list under
    [transcripts] adds exactly two entries to the transcript list of the
    call and to that list of the session, in this order: what the caller
    said, stamped with the first clock reading of the run, then the
    responder's reply, stamped with the second. *)
Theorem X14_session_transcripts_without_database (E : env) (payload : CallWebhook)
    (w : world) (s : session) (l : list value) :
  has_transcripts_store E = false → store_ok E w →
  stored_session E w (p_call_id payload) = Some s →
  s !! "transcripts" = Some (VList l) →
  let c := p_call_id payload in
  ∃ sm w' s' asr_text r,
    orchestrator.process_call E payload w = (Ret sm, w') ∧
    orchestrator.transcribe E (p_media_url payload) w = (Ret asr_text, w) ∧
    (∃ w1, orchestrator.respond E asr_text c w1 = (Ret r, w1)) ∧
    let e1 := Entry c (now E (clock w)) asr_text "asr" None in
    let e2 := Entry c (now E (S (clock w))) (default "" (lr_reply r)) "llm" None in
    stored_transcripts E w' c = (stored_transcripts E w c ++ [e1; e2])%list ∧
    stored_session E w' c = Some s' ∧
    s' !! "transcripts" = Some (VList (l ++ [entry_value e1; entry_value e2])%list).
Proof.
  intros Hno Hok Hst Hl c.
  destruct (process_call_store E payload w Hok)
    as (sm & t & r & a1 & a2 & w1 & w2 & w' & Hrun & Ht & Hr & Hstep1 & Hstep2 & Hmem & _ &
        Hfin & _ & Htr).
  fold c in Hr, Hstep1, Hstep2, Hmem, Hfin. destruct (Hmem Hno) as [-> ->].
  destruct Hstep1 as (Hs1 & Ht1 & _), Hstep2 as (Hs2 & Ht2 & _).
  fold c in Hst. rewrite Hst in Hs1. rewrite Hs1 in Hs2. rewrite Hs2 in Hfin.
  simpl in Hfin, Ht1, Ht2. rewrite Hl in Hfin. rewrite lookup_insert_eq in Hfin.
  eexists sm, w', _, t, r. split; [exact Hrun|]. split; [exact Ht|].
  split; [by exists w1|]. simpl. split; [|split; [exact Hfin|]].
  - rewrite Htr, Ht2, Ht1, <- app_assoc. done.
  - rewrite dict_update_frame
      by (apply final_patch_frame; unfold final_patch_keys;
          rewrite !not_elem_of_cons; split_and!; try discriminate; apply not_elem_of_nil).
    rewrite lookup_insert_eq, <- app_assoc. done.
Qed.

Lemma X14_session_transcripts_without_database_witness :
  ∃ sm w' s',
    orchestrator.process_call demo.agent_request demo.call (demo.received demo.agent_request)
      = (Ret sm, w') ∧
    stored_session demo.agent_request w' "call-1" = Some s' ∧
    s' !! "transcripts"
      = Some (VList [entry_value (Entry "call-1" (demo.tick 2) "I need an agent" "asr" None);
                     entry_value (Entry "call-1" (demo.tick 3) "Connecting you to an agent."
                                    "llm" None)]).
Proof.
  destruct (X14_session_transcripts_without_database demo.agent_request demo.call
              (demo.received demo.agent_request)
              (webhooks.new_session demo.call (demo.tick 0) (demo.tick 1)) []
              eq_refl (or_introl eq_refl) eq_refl eq_refl)
    as (sm & w' & s' & t & r & Hrun & Ht & [w1 Hr] & _ & Hst & Hl).
  exists sm, w', s'. split; [exact Hrun|]. split; [exact Hst|].
  injection Ht as <-. injection Hr as <-. exact Hl.
Defined.



(** ** The address of the synthesized reply *)

Lemma rstrip_slash_only_slashes (s : string) :
  ∃ k, s = orchestrator.rstrip_slash s +:+ slashes k.
Proof.
  induction s as [|c s' [k IH]]; [by exists 0%nat|]. simpl.
  destruct (orchestrator.rstrip_slash s') as [|a r] eqn:Hr.
  - rewrite append_nil in IH. subst s'. case_bool_decide as Hc.
    + subst c. exists (S k). by rewrite append_nil.
    + exists k. by rewrite append_cons, append_nil.
  - exists k. rewrite append_cons. by rewrite <- IH.
Qed.

Lemma rstrip_slash_no_slash_left (s p : string) :
  orchestrator.rstrip_slash s ≠ p +:+ "/".
Proof.
  revert p. induction s as [|c s' IH]; intros p; simpl.
  - by destruct p.
  - destruct (orchestrator.rstrip_slash s') as [|a r] eqn:Hr.
    + case_bool_decide as Hc; [by destruct p|].
      destruct p as [|b p']; [rewrite append_nil; congruence|].
      rewrite append_cons. intros [= _ H]. by destruct p'.
    + destruct p as [|b p']; [rewrite append_nil; congruence|].
      rewrite append_cons. intros [= _ H]. by apply (IH p').
Qed.

(** X16.  The address published for a synthesized reply is the configured
    media base with every trailing slash removed, one slash, and the file
    name of the audio: however many slashes end the configured base, the
    address is the same, and nothing but trailing slashes is dropped. *)
Theorem X16_media_url_one_slash (E : env) (reply_text : option string) (c p : string)
    (synthesize_fn : option string → string → outcome (option string)) (w : world) :
  tts E = Some synthesize_fn → synthesize_fn reply_text c = Ret (Some p) → p ≠ "" →
  ∃ base k,
    MEDIA_BASE_URL E = base +:+ slashes k ∧ (∀ q, base ≠ q +:+ "/") ∧
    orchestrator.synthesize E reply_text c w
      = (Ret (Some (base +:+ "/" +:+ path_name E p)), w).
Proof.
  intros Htts Hfn Hp.
  destruct (rstrip_slash_only_slashes (MEDIA_BASE_URL E)) as [k Hk].
  exists (orchestrator.rstrip_slash (MEDIA_BASE_URL E)), k.
  split; [exact Hk|]. split; [apply rstrip_slash_no_slash_left|].
  unfold orchestrator.synthesize. rewrite Htts. unfold_m. rewrite Hfn.
  apply nonempty_true in Hp. by rewrite Hp.
Qed.

Lemma X16_media_url_one_slash_witness :
  ∃ base k,
    "http://localhost:8000/media//" = base +:+ slashes k ∧ (∀ q, base ≠ q +:+ "/") ∧
    orchestrator.synthesize
      (Env demo.tick false "" "http://localhost:8000/media//" (λ p, "call-1_reply.wav")
           None None (Some (λ _ c, Ret (Some ("/srv/recordings/" +:+ c +:+ "_reply.wav"))))
           false demo.import_error demo.import_error false None true PyStr.ascii_lower)
      (Some "Hello") "call-1" demo.empty_world
      = (Ret (Some (base +:+ "/" +:+ "call-1_reply.wav")), demo.empty_world).
Proof.
  apply (X16_media_url_one_slash
           (Env demo.tick false "" "http://localhost:8000/media//" (λ p, "call-1_reply.wav")
                None None (Some (λ _ c, Ret (Some ("/srv/recordings/" +:+ c +:+ "_reply.wav"))))
                false demo.import_error demo.import_error false None true PyStr.ascii_lower)
           (Some "Hello") "call-1" "/srv/recordings/call-1_reply.wav" _ demo.empty_world
           eq_refl eq_refl).
  discriminate.
Defined.

(** ** Flow store and flow endpoints *)

Ltac unfold_f :=
  unfold mbind, F_bind, F_then, mret, F_ret, F_pure, F_try, F_gets, F_modify, F_raise,
         db_call, F_utcnow in *.

Lemma select_flow_update_same f u t :
  flows_store.select_flow (flow_id f) (flows_store.update_flow f u t)
    = (λ _, FlowRow f u) <$> flows_store.select_flow (flow_id f) t.
Proof.
  unfold flows_store.select_flow, flows_store.update_flow.
  induction t as [|r t IH]; [done|]. simpl.
  destruct (bool_decide (flow_id (fr_flow r) = flow_id f)) eqn:Hr; simpl.
  - by rewrite bool_decide_true.
  - by rewrite Hr.
Qed.

Lemma select_flow_update_other f u t fid :
  fid ≠ flow_id f →
  flows_store.select_flow fid (flows_store.update_flow f u t) = flows_store.select_flow fid t.
Proof.
  intros Hne. unfold flows_store.select_flow, flows_store.update_flow.
  induction t as [|r t IH]; [done|]. simpl.
  destruct (bool_decide (flow_id (fr_flow r) = flow_id f)) eqn:Hr; simpl.
  - apply bool_decide_eq_true in Hr.
    rewrite !bool_decide_false by congruence. done.
  - by rewrite IH.
Qed.

Lemma select_flow_app fid t r :
  flows_store.select_flow fid (t ++ [r])%list
    = match flows_store.select_flow fid t with
      | Some x => Some x
      | None => if bool_decide (flow_id (fr_flow r) = fid) then Some r else None
      end.
Proof.
  unfold flows_store.select_flow. induction t as [|x t IH]; simpl; [done|].
  by destruct (bool_decide (flow_id (fr_flow x) = fid)).
Qed.

Lemma select_flow_none fid t :
  flows_store.select_flow fid t = None ↔ fid ∉ (λ r, flow_id (fr_flow r)) <$> t.
Proof.
  unfold flows_store.select_flow. induction t as [|x t IH]; simpl.
  - split; [intros _; apply not_elem_of_nil | done].
  - rewrite not_elem_of_cons. case_bool_decide as Hx.
    + split; [done | by intros [? _]].
    + rewrite IH. split; [by intros ?; split | by intros [_ ?]].
Qed.

Lemma update_flow_ids f u t :
  (λ r, flow_id (fr_flow r)) <$> flows_store.update_flow f u t
    = (λ r, flow_id (fr_flow r)) <$> t.
Proof.
  unfold flows_store.update_flow. induction t as [|r t IH]; [done|]. simpl.
  f_equal; [|exact IH].
  destruct (bool_decide (flow_id (fr_flow r) = flow_id f)) eqn:Hr; [|done].
  by apply bool_decide_eq_true in Hr.
Qed.

Lemma update_flow_elem f u t r :
  r ∈ flows_store.update_flow f u t →
  r = FlowRow f u ∨ (r ∈ t ∧ flow_id (fr_flow r) ≠ flow_id f).
Proof.
  unfold flows_store.update_flow. rewrite list_elem_of_In, List.in_map_iff.
  intros (x & Hx & Hin). apply list_elem_of_In in Hin.
  case_bool_decide; subst; auto.
Qed.

Lemma update_flow_absent f u t :
  flows_store.select_flow (flow_id f) t = None → flows_store.update_flow f u t = t.
Proof.
  unfold flows_store.select_flow, flows_store.update_flow.
  induction t as [|r t IH]; [done|]. simpl.
  destruct (bool_decide (flow_id (fr_flow r) = flow_id f)); [done|].
  intros H. by rewrite IH.
Qed.

Lemma upserted_spec f u t :
  flows_store.select_flow (flow_id f) (upserted f u t) = Some (FlowRow f u) ∧
  (∀ fid, fid ≠ flow_id f →
     flows_store.select_flow fid (upserted f u t) = flows_store.select_flow fid t) ∧
  (flow_ids_unique t → flow_ids_unique (upserted f u t)) ∧
  (∀ r, r ∈ upserted f u t →
     r = FlowRow f u ∨ (r ∈ t ∧ flow_id (fr_flow r) ≠ flow_id f)) ∧
  FlowRow f u ∈ upserted f u t.
Proof.
  unfold upserted.
  destruct (flows_store.select_flow (flow_id f) t) as [r|] eqn:Hsel.
  - assert (Hnew : flows_store.select_flow (flow_id f) (flows_store.update_flow f u t)
                   = Some (FlowRow f u)) by (by rewrite select_flow_update_same, Hsel).
    split_and!.
    + done.
    + intros fid Hne. by apply select_flow_update_other.
    + unfold flow_ids_unique. by rewrite update_flow_ids.
    + apply update_flow_elem.
    + unfold flows_store.select_flow in Hnew. apply List.find_some in Hnew as [Hin _].
      by apply list_elem_of_In.
  - split_and!.
    + rewrite select_flow_app, Hsel. by rewrite bool_decide_true.
    + intros fid Hne. rewrite select_flow_app.
      destruct (flows_store.select_flow fid t); [done|].
      by rewrite bool_decide_false.
    + unfold flow_ids_unique. rewrite fmap_app. simpl.
      intros Hnd. apply NoDup_app. split_and!; [done | | apply NoDup_singleton].
      intros x Hx Hx'. apply list_elem_of_singleton in Hx'. subst x.
      by apply select_flow_none in Hsel.
    + intros r Hr. apply elem_of_app in Hr as [Hr|Hr].
      * right. split; [done|]. intros Hid. apply select_flow_none in Hsel.
        apply Hsel. rewrite <- Hid.
        by apply (list_elem_of_fmap_2 (λ r, flow_id (fr_flow r))).
      * left. by apply list_elem_of_singleton in Hr.
    + apply elem_of_app. right. by apply list_elem_of_singleton.
Qed.

(** [save_flow] when the database answers: the stamp is the one given, or
    a clock reading when none or an empty one is given. *)
Lemma save_flow_ok (E : env) f upd w :
  fl_faults w = [] → flow_id f ≠ "" →
  ∃ u w0,
    flows_store.save_flow E f upd w
      = (Ret (Some (FlowRow f u)), set_flows_table (upserted f u (flows_table w)) w0) ∧
    (w0 = w ∨ w0 = set_fl_clock (S (fl_clock w)) w) ∧
    (∀ x, upd = Some x → x ≠ "" → u = x ∧ w0 = w).
Proof.
  intros Hf Hid. unfold flows_store.save_flow.
  apply nonempty_true in Hid. rewrite Hid. simpl.
  assert (Hrest : ∀ u w0, fl_faults w0 = [] → flows_table w0 = flows_table w →
    (db_call;;
     F_modify (λ w, set_flows_table (flows_store.update_flow f u (flows_table w)) w);;
     db_call;;
     existing ← F_gets (λ w, flows_store.select_flow (flow_id f) (flows_table w));
     match existing with
     | Some r => mret (Some r)
     | None =>
         db_call;;
         F_modify (λ w, set_flows_table (flows_table w ++ [FlowRow f u])%list w);;
         db_call;;
         F_gets (λ w, flows_store.select_flow (flow_id f) (flows_table w))
     end) w0
    = (Ret (Some (FlowRow f u)), set_flows_table (upserted f u (flows_table w)) w0)).
  { intros u w0 Hf0 Ht0. unfold_f. rewrite Hf0. simpl. rewrite Hf0. simpl.
    rewrite Ht0, select_flow_update_same. unfold upserted.
    destruct (flows_store.select_flow (flow_id f) (flows_table w)) as [r|] eqn:Hsel; simpl;
      [done|].
    rewrite Hf0. simpl. rewrite Hf0. simpl.
    rewrite (update_flow_absent f u _ Hsel), select_flow_app, Hsel.
    by rewrite bool_decide_true. }
  destruct upd as [x|]; [destruct (PyStr.nonempty x) eqn:Hx|].
  - exists x, w. unfold mbind at 1, F_bind at 1, F_then at 1.
    unfold mret at 1, F_ret at 1, F_pure at 1. cbv beta iota.
    rewrite (Hrest x w Hf eq_refl). split_and!; auto.
    intros y [= <-] _. done.
  - exists (now E (fl_clock w)), (set_fl_clock (S (fl_clock w)) w).
    unfold mbind at 1, F_bind at 1, F_then at 1, F_utcnow. cbv beta iota.
    rewrite (Hrest _ (set_fl_clock (S (fl_clock w)) w) Hf eq_refl). split_and!; auto.
    intros y [= <-] Hy. apply nonempty_true in Hy. congruence.
  - exists (now E (fl_clock w)), (set_fl_clock (S (fl_clock w)) w).
    unfold mbind at 1, F_bind at 1, F_then at 1, F_utcnow. cbv beta iota.
    rewrite (Hrest _ (set_fl_clock (S (fl_clock w)) w) Hf eq_refl). split_and!; auto.
    intros y [=].
Qed.

Lemma dict_get_set_same k v d :
  api_flows.dict_get k (api_flows.dict_set k v d) = Some v.
Proof.
  unfold api_flows.dict_get, api_flows.dict_set.
  destruct (existsb _ d) eqn:Hex.
  - induction d as [|[k' v'] d IH]; [done|]. simpl in *.
    destruct (bool_decide (k' = k)) eqn:Hk; simpl.
    + by rewrite bool_decide_true.
    + rewrite Hk. by apply IH.
  - induction d as [|[k' v'] d IH]; simpl in *.
    + by rewrite bool_decide_true.
    + destruct (bool_decide (k' = k)); [done|]. by apply IH.
Qed.

Lemma dict_get_set_other k k' v d :
  k' ≠ k → api_flows.dict_get k' (api_flows.dict_set k v d) = api_flows.dict_get k' d.
Proof.
  intros Hne. unfold api_flows.dict_get, api_flows.dict_set.
  destruct (existsb _ d) eqn:Hex; clear Hex.
  - induction d as [|[k0 v0] d IH]; [done|]. simpl.
    destruct (bool_decide (k0 = k)) eqn:Hk; simpl.
    + apply bool_decide_eq_true in Hk. subst k0.
      rewrite !bool_decide_false by done. exact IH.
    + destruct (bool_decide (k0 = k')); [done | exact IH].
  - induction d as [|[k0 v0] d IH]; simpl.
    + by rewrite bool_decide_false.
    + destruct (bool_decide (k0 = k')); [done | exact IH].
Qed.

Lemma upsert_flow_ok (E : env) f w :
  fl_faults w = [] → flow_id f ≠ "" →
  ∃ u w1,
    api_flows.upsert_flow E true f w = (Ret ("ok", flow_id f), w1) ∧
    flows_table w1 = upserted f u (flows_table w) ∧
    FLOW_STORE w1 = FLOW_STORE w ∧ fl_faults w1 = [] ∧
    (now E (fl_clock w) ≠ "" → u = now E (fl_clock w)).
Proof.
  intros Hf Hid. unfold api_flows.upsert_flow, api_flows.import_flows_store.
  unfold mbind at 1, F_bind at 1, F_then at 1, F_utcnow at 1. cbv beta iota.
  set (w0 := set_fl_clock (S (fl_clock w)) w).
  destruct (save_flow_ok E f (Some (now E (fl_clock w))) w0 Hf Hid)
    as (u & w0' & Hsave & Hw0 & Hu).
  exists u, (set_flows_table (upserted f u (flows_table w)) w0').
  unfold F_try, mbind, F_bind, F_then, mret, F_ret, F_pure in *. rewrite Hsave.
  split; [done|]. destruct Hw0 as [-> | ->]; simpl; split_and!; try done.
  all: intros Hne; by destruct (Hu _ eq_refl Hne).
Qed.

(** X17.  A flow posted while the database answers is what [GET
    /flows/{flow_id}] returns next, whether the table had a row for its
    identifier or not; the flows under other identifiers read as before,
    no identifier comes to be twice in the table, and the in-memory dict
    is not touched. *)
Theorem X17_upsert_then_get_flow (E : env) (f : Flow) (w : flows_world) :
  fl_faults w = [] → flow_id f ≠ "" →
  ∃ u w1,
    api_flows.upsert_flow E true f w = (Ret ("ok", flow_id f), w1) ∧
    api_flows.get_flow true (flow_id f) w1 = (Ret (FlowRow f u), w1) ∧
    (now E (fl_clock w) ≠ "" → u = now E (fl_clock w)) ∧
    (∀ fid, fid ≠ flow_id f →
       (api_flows.get_flow true fid w1).1 = (api_flows.get_flow true fid w).1) ∧
    (flow_ids_unique (flows_table w) → flow_ids_unique (flows_table w1)) ∧
    FLOW_STORE w1 = FLOW_STORE w.
Proof.
  intros Hf Hid.
  destruct (upsert_flow_ok E f w Hf Hid) as (u & w1 & Hrun & Ht & Hs & Hf1 & Hu).
  destruct (upserted_spec f u (flows_table w)) as (Hsel & Hother & Huniq & _).
  exists u, w1. split; [done|].
  assert (Hget : ∀ fid w', fl_faults w' = [] →
            api_flows.get_flow true fid w'
            = (match flows_store.select_flow fid (flows_table w') with
               | Some r => Ret r
               | None => Raise (HTTPException 404 "flow not found")
               end, w')).
  { intros fid w' Hf'. unfold api_flows.get_flow, api_flows.import_flows_store,
      flows_store.get_flow. unfold_f. rewrite Hf'. simpl.
    by destruct (flows_store.select_flow fid (flows_table w')). }
  split_and!; try done.
  - by rewrite (Hget _ w1 Hf1), Ht, Hsel.
  - intros fid Hne. by rewrite (Hget _ w1 Hf1), (Hget _ w Hf), Ht, (Hother fid Hne).
  - rewrite Ht. done.
Qed.

Lemma X17_upsert_then_get_flow_witness :
  ∃ w1,
    api_flows.upsert_flow demo.no_adapters true demo.faq_flow
      (FlowsWorld [] 0 [FlowRow demo.actions_flow "2023-12-31T00:00:00"] [])
      = (Ret ("ok", "faq-v1"), w1) ∧
    api_flows.get_flow true "faq-v1" w1 = (Ret (FlowRow demo.faq_flow (demo.tick 0)), w1).
Proof.
  destruct (X17_upsert_then_get_flow demo.no_adapters demo.faq_flow
              (FlowsWorld [] 0 [FlowRow demo.actions_flow "2023-12-31T00:00:00"] []))
    as (u & w1 & Hrun & Hget & Hu & _); [reflexivity | discriminate |].
  exists w1. split; [exact Hrun|]. rewrite Hu in Hget; [exact Hget | discriminate].
Defined.

(** X18.  A flow the database did not take is answered with status [ok]
    all the same, and kept in the in-memory dict only: this is so for a
    flow with an empty identifier, which never reaches the database, and
    for a flow whose first database call fails.  As long as the database
    answers, [GET /flows/{flow_id}] reads the table alone and answers 404
    for that flow. *)
Theorem X18_unsaved_flow_is_not_found (E : env) (f : Flow) (w : flows_world) :
  (flow_id f = "" ∧ fl_faults w = []) ∨ (flow_id f ≠ "" ∧ fl_faults w = [true]) →
  flows_store.select_flow (flow_id f) (flows_table w) = None →
  ∃ w1,
    api_flows.upsert_flow E true f w = (Ret ("ok", flow_id f), w1) ∧
    flows_table w1 = flows_table w ∧
    api_flows.dict_get (flow_id f) (FLOW_STORE w1)
      = Some (FlowRow f (now E (fl_clock w))) ∧
    api_flows.get_flow true (flow_id f) w1
      = (Raise (HTTPException 404 "flow not found"), w1).
Proof.
  intros Hcase Hsel.
  unfold api_flows.upsert_flow, api_flows.get_flow, api_flows.import_flows_store,
    flows_store.save_flow, flows_store.get_flow, flows_store.select_flow in *.
  destruct Hcase as [[Hid Hf] | [Hid Hf]].
  - rewrite Hid in *. unfold_f. simpl.
    eexists. split; [reflexivity|]. unfold set_FLOW_STORE, set_fl_clock. simpl.
    rewrite Hf. simpl. rewrite Hsel, dict_get_set_same. done.
  - apply nonempty_true in Hid. rewrite Hid. unfold_f. simpl.
    destruct (PyStr.nonempty (now E (fl_clock w))); simpl; rewrite Hf; simpl;
      (eexists; split; [reflexivity|]); unfold set_FLOW_STORE, set_fl_clock, set_fl_faults;
      simpl; rewrite Hsel, dict_get_set_same; done.
Qed.

Lemma X18_unsaved_flow_is_not_found_witness :
  ∃ w1,
    api_flows.upsert_flow demo.no_adapters true demo.faq_flow (FlowsWorld [true] 0 [] [])
      = (Ret ("ok", "faq-v1"), w1) ∧
    api_flows.get_flow true "faq-v1" w1 = (Raise (HTTPException 404 "flow not found"), w1).
Proof.
  destruct (X18_unsaved_flow_is_not_found demo.no_adapters demo.faq_flow
              (FlowsWorld [true] 0 [] []))
    as (w1 & Hrun & _ & _ & Hget).
  - right. split; [discriminate | reflexivity].
  - reflexivity.
  - exists w1. split; [exact Hrun | exact Hget].
Defined.

(** X19.  Without the flow store module the flow endpoints work on the
    in-memory dict: a posted flow is what [GET /flows/{flow_id}] returns
    next, the flows under other identifiers are as before, and the table
    is not touched. *)
Theorem X19_upsert_then_get_flow_in_memory (E : env) (f : Flow) (w : flows_world) :
  ∃ w1,
    api_flows.upsert_flow E false f w = (Ret ("ok", flow_id f), w1) ∧
    api_flows.get_flow false (flow_id f) w1
      = (Ret (FlowRow f (now E (fl_clock w))), w1) ∧
    (∀ fid, fid ≠ flow_id f →
       (api_flows.get_flow false fid w1).1 = (api_flows.get_flow false fid w).1) ∧
    flows_table w1 = flows_table w ∧ fl_faults w1 = fl_faults w.
Proof.
  unfold api_flows.upsert_flow, api_flows.get_flow, api_flows.import_flows_store.
  unfold_f. simpl. eexists. split; [reflexivity|]. simpl.
  rewrite dict_get_set_same. split_and!; try done.
  intros fid Hne. rewrite dict_get_set_other by done.
  by destruct (api_flows.dict_get fid (FLOW_STORE w)).
Qed.

#[local] Instance flow_newer_first_trans : Transitive flows_store.flow_newer_first.
Proof. intros a b c Hab Hbc. unfold flows_store.flow_newer_first in *. by eapply str_le_trans. Qed.

#[local] Instance flow_newer_first_total : Total flows_store.flow_newer_first.
Proof. intros a b. unfold flows_store.flow_newer_first. apply str_le_total. Qed.



(** ** The stub run *)

#[local] Instance web_kept_refl : Reflexive web_kept.
Proof. by intros w. Qed.
#[local] Instance web_kept_trans : Transitive web_kept.
Proof. unfold web_kept. intros a b c; congruence. Qed.

Lemma web_kept_io : keeps web_kept io_call.
Proof. intros w. apply wp_io_call; done. Qed.

Lemma web_kept_utcnow (E : env) : keeps web_kept (utcnow E).
Proof. intros w. by apply wp_utcnow. Qed.

Ltac web_step := first [apply web_kept_io | apply web_kept_utcnow | keeps_step].

Lemma save_transcript_web (E : env) e :
  keeps web_kept (transcripts_store.save_transcript_touch E e) ∧
  keeps web_kept (transcripts_store.save_transcript_db e).
Proof.
  unfold transcripts_store.save_transcript_touch, transcripts_store.save_transcript_db.
  split; repeat web_step; done.
Qed.

Lemma update_session_web (E : env) c patch :
  keeps web_kept (session_store.update_session E c patch).
Proof.
  unfold session_store.update_session, session_store.redis_get, session_store.redis_set,
    session_store.inmem_get, session_store.inmem_put.
  repeat web_step; done.
Qed.

Lemma wp_intro {A} (m : M A) w (Q : A → world → Prop) X a w' :
  m w = (Ret a, w') → Q a w' → wp m w Q X.
Proof. unfold wp. by intros ->. Qed.

Lemma store_kept_trans a b c : store_kept a b → store_kept b c → store_kept a c.
Proof.
  intros (? & ? & ? & ? & ?) (? & ? & ? & ? & ?).
  unfold store_kept. split_and!; first [congruence | by etrans].
Qed.

(** The transcript write of the stub: the session store is left alone. *)
Lemma stub_transcript_write (E : env) c e tr w :
  returns
    (if has_transcripts_store E then
       entry' ← transcripts_store.save_transcript_touch E e;
       try_except (transcripts_store.save_transcript_db entry';; mret tr)
                  (λ _, mret (webhooks_stub.remember c entry' tr))
     else mret (webhooks_stub.remember c e tr)) w
    (λ tr' w', store_kept w w' ∧ web_kept w w' ∧
               (has_transcripts_store E = false →
                  tr' = webhooks_stub.remember c e tr ∧
                  db_transcripts w' = db_transcripts w)).
Proof.
  destruct (has_transcripts_store E); [|apply wp_ret; split_and!; by auto using store_kept_refl].
  destruct (save_transcript_touch_eq E e w)
    as (e' & w1 & Htouch & _ & _ & _ & _ & _ & _ & Hcl).
  assert (Hk1 : store_kept w w1).
  { destruct Hcl as (_ & Hf & _ & Hit & Hrl & _ & Him & Hrs). unfold store_kept, quiet.
    by rewrite Hrs, Him, Hrl, Hit, Hf. }
  assert (Hw1 : web_kept w w1).
  { pose proof (proj1 (save_transcript_web E e) w) as H. unfold wp in H.
    by rewrite Htouch in H. }
  apply wp_bind. eapply wp_intro; [exact Htouch|].
  pose proof (save_transcript_db_store e' w1) as Hdb.
  pose proof (proj2 (save_transcript_web E e') w1) as Hweb.
  apply wp_try, wp_bind. unfold wp in *.
  destruct (transcripts_store.save_transcript_db e' w1) as [[row|ex] w2]; simpl.
  - destruct Hdb as [Hk2 _]. split_and!; [by eapply store_kept_trans | by etrans | done].
  - destruct Hdb as [Hk2 _]. split_and!; [by eapply store_kept_trans | by etrans | done].
Qed.

(** X21.  The stub run never raises, whatever fails.  It writes nothing
    to the transcript lists of the session store nor to the fallback dict
    of sessions of the webhook module, and without the transcript store
    module its one transcript entry goes to the dict of the webhook
    module.  While the session store answers it lays its patch over the
    session of the call, so that the status read back is [answered], a
    value the orchestrator never writes. *)
Theorem X21_stub_run_answers (E : env) (payload : CallWebhook)
    (tr : gmap string (list entry)) (w : world) :
  let c := p_call_id payload in
  ∃ tr' w',
    webhooks_stub._stub_process_call E payload tr w = (Ret tr', w') ∧
    redis_lists w' = redis_lists w ∧ INMEM_TRANSCRIPTS w' = INMEM_TRANSCRIPTS w ∧
    webhooks_INMEM_SESSIONS w' = webhooks_INMEM_SESSIONS w ∧
    (has_transcripts_store E = false →
       tr' = webhooks_stub.remember c
               (Entry c (now E (clock w)) webhooks_stub.stub_transcript "asr_stub" None) tr ∧
       db_transcripts w' = db_transcripts w) ∧
    (store_ok E w →
       ∃ t,
         stored_session E w' c
           = Some (dict_update (default ∅ (stored_session E w c))
                     (webhooks_stub.stub_patch t)) ∧
         stored_status E w' c = Some (VStr "answered") ∧
         (∀ c', c' ≠ c → stored_session E w' c' = stored_session E w c')).
Proof.
  intros c.
  apply returns_elim.
  unfold webhooks_stub._stub_process_call. fold c.
  apply wp_bind, wp_utcnow.
  set (w0 := set_clock (S (clock w)) w).
  set (e := Entry c (now E (clock w)) webhooks_stub.stub_transcript "asr_stub" None).
  assert (Hk0 : store_kept w w0) by (by unfold store_kept, quiet).
  apply wp_bind.
  eapply wp_mono; [apply (stub_transcript_write E c e tr w0) | | done].
  intros tr' w1 (Hk1 & Hweb1 & Hmem). simpl.
  pose proof (store_kept_trans _ _ _ Hk0 Hk1) as Hk.
  destruct (store_kept_reads E w w1 Hk) as (Hok1 & Hs1 & Ht1).
  set (w2 := set_clock (S (clock w1)) w1).
  destruct (update_session_any E c (webhooks_stub.stub_patch (now E (clock w1))) w2)
    as (base & merged & w' & Hup & -> & _ & Hgood & _ & _ & Hdb & Hit & Hrl & _).
  assert (Hweb' : web_kept w2 w').
  { pose proof (update_session_web E c (webhooks_stub.stub_patch (now E (clock w1))) w2) as H.
    unfold wp in H. by rewrite Hup in H. }
  assert (Hs2 : ∀ c', stored_session E w2 c' = stored_session E w c').
  { intros c'. rewrite <- Hs1. unfold stored_session. by destruct (redis_client E). }
  apply wp_bind, wp_try, wp_bind, wp_utcnow. fold w2.
  apply wp_bind. eapply wp_intro; [exact Hup|]. apply wp_ret, wp_ret.
  destruct Hk as (_ & _ & Hrl1 & Hit1 & _).
  split_and!.
  - rewrite Hrl. subst w2. simpl. done.
  - rewrite Hit. subst w2. simpl. done.
  - unfold web_kept in *. rewrite Hweb'. subst w2 w0. simpl in *. by rewrite Hweb1.
  - intros Hno. destruct (Hmem Hno) as [-> Hdb1]. split; [done|].
    rewrite Hdb. subst w2 w0. simpl in *. by rewrite Hdb1.
  - intros Hok. destruct Hgood as (-> & Hst & Hothers).
    { specialize (Hok1 Hok). by unfold store_ok in *. }
    exists (now E (clock w1)). rewrite Hs2 in Hst. split_and!.
    + done.
    + unfold stored_status. rewrite Hst. simpl. by apply dict_update_patch.
    + intros c' Hc. by rewrite (Hothers c' Hc), Hs2.
Qed.

Lemma X21_stub_run_answers_witness :
  ∃ tr' w',
    webhooks_stub._stub_process_call demo.no_adapters demo.call ∅
      (demo.received demo.no_adapters) = (Ret tr', w') ∧
    stored_status demo.no_adapters w' "call-1" = Some (VStr "answered").
Proof.
  destruct (X21_stub_run_answers demo.no_adapters demo.call ∅
              (demo.received demo.no_adapters))
    as (tr' & w' & Hrun & _ & _ & _ & _ & Hstore).
  destruct (Hstore (or_introl eq_refl)) as (t & _ & Hstatus & _).
  exists tr', w'. split; [exact Hrun | exact Hstatus].
Defined.
